(** * frida-ipa-dump: the control plane of [dump.py]

    A shallow embedding of [src/frida-ipa-dump/dump.py]: the download
    manager ([Task], [IPADump.on_download_*], [IPADump.close_session]),
    the message router ([IPADump.on_message]) and the orchestration of
    the primary session and of the plugin sessions ([IPADump.dump],
    [IPADump.dump_with_plugins], [IPADump.run]).

    Python objects are records, dictionaries are [gmap]s, the methods of
    [IPADump] are computations in a state-and-exception monad over the
    object and the outside world.  Whatever the program does to the
    outside (device calls, agent exports, file operations, printing) is
    appended to a trace, so that "is called", "exactly once" and "before"
    are statements about that trace. *)

From Stdlib Require Import ZArith.
From Stdlib.Strings Require Import Byte.
From stdpp Require Import gmap strings list fin_maps pretty.

Local Open Scope Z_scope.
Local Open Scope string_scope.

(** ** Python values *)

(** The values that travel in a message: JSON scalars, and composite
    values (arrays, objects) kept as their JSON text.  Floating point
    numbers are left out. *)
Inductive pyval :=
| VNone
| VBool (b : bool)
| VInt (n : Z)
| VStr (s : string)
| VComposite (json : string).

#[global] Instance pyval_eq_dec : EqDecision pyval.
Proof. solve_decision. Defined.

#[global] Instance pyval_countable : Countable pyval.
Proof.
  refine (inj_countable'
    (fun v => match v with
              | VNone => inl (inl tt)
              | VBool b => inl (inr b)
              | VInt n => inr (inl n)
              | VStr s => inr (inr (inl s))
              | VComposite j => inr (inr (inr j))
              end)
    (fun c => match c with
              | inl (inl _) => VNone
              | inl (inr b) => VBool b
              | inr (inl n) => VInt n
              | inr (inr (inl s)) => VStr s
              | inr (inr (inr j)) => VComposite j
              end) _).
  by intros [].
Defined.

(** The exceptions the program raises or lets through. *)
Inductive exn :=
| KeyError
| TypeError
| ValueError
| AttributeError
| RuntimeError (msg : string)
| ProcessNotFoundError
| SystemExit (code : Z).

#[global] Instance exn_eq_dec : EqDecision exn.
Proof. solve_decision. Defined.

(** The key under which a value is stored in a [dict]: composite values
    are unhashable, and [True]/[False] are the keys [1]/[0]. *)
Definition hash_key (v : pyval) : exn + pyval :=
  match v with
  | VComposite _ => inl TypeError
  | VBool b => inr (VInt (if b then 1 else 0))
  | _ => inr v
  end.

(** Truth value of a string ([not group]). *)
Definition str_truthy (s : string) : bool :=
  match s with EmptyString => false | _ => true end.

(** The payload of a message is a JSON value; only an object has [.get]. *)
Inductive payload :=
| PDict (d : gmap string pyval)
| POther (v : pyval).

(** A message as frida delivers it: a dict of which the program reads
    the keys ['type'] and ['payload']. *)
Record Message := {
  msg_type : option pyval;
  msg_payload : option payload;
}.

(** ** Sessions, scripts, options *)

Inductive target :=
| ByPid (pid : Z)
| ByName (name : string).

#[global] Instance target_eq_dec : EqDecision target.
Proof. solve_decision. Defined.

(** [device.attach] returns a new session object on every call; the
    number tells the objects apart. *)
Record Session := {
  sess_id : nat;
  sess_target : target;
}.

#[global] Instance Session_eq_dec : EqDecision Session.
Proof. solve_decision. Defined.

(** [session.create_script] : one script per session. *)
Record Script := {
  script_session : Session;
}.

#[global] Instance Script_eq_dec : EqDecision Script.
Proof. solve_decision. Defined.

(** [self.opt]: ['keepWatch'] from the constructor, ['dest'] added on the
    plugin path. *)
Record Options := {
  keepWatch : bool;
  dest : option string;
}.

(** What [decrypt] returns: a list of JSON records. *)
Abbreviation manifest := (list pyval).

(** The argument of [device.spawn]: a bundle identifier or an argv. *)
Inductive program :=
| Bundle (identifier : string)
| Argv (argv : list string).

(** The calls on [script.exports]. *)
Inductive export_call :=
| XPlugins
| XRoot
| XData
| XDecrypt (root container : string)
| XArchive (root container : string) (decrypted : manifest) (opt : Options)
| XLaunch (identifier : string)
| XGroups
| XPathForGroup (group : string)
| XSkipPkdValidationFor (pid : Z).

Inductive pitem :=
| PText (s : string)
| PMsg (m : Message).

(** Everything the program does to the outside world. *)
Inductive effect :=
| Print (items : list pitem)
| GetFrontmost
| Kill (pid : Z)
| Spawn (p : program)
| Attach (t : target)
| Resume (pid : Z)
| CreateScript (s : Session)
| SetLogHandler (s : Script)
| OnMessage (s : Script)
| Load (s : Script)
| Export (s : Script) (c : export_call)
| Detach (s : Session)
| FileOpen (path : string) (fd : nat)
| FileWrite (fd : nat) (data : list byte)
| FileClose (fd : nat)
| ReadAgent.

(** ** The outside world *)

(** What a buffered write does with the bytes the file object holds
    back and with the bytes it is given: keep both, write the held ones
    out and keep the new ones, or write everything out. *)
Inductive flush :=
| KeepAll
| FlushBuffer
| FlushAll.

(** A file object made by [open(path, 'wb')]: its path, the offset in
    the file at which the bytes it holds back will be written, those
    bytes, and whether it is closed.  The bytes reach the file when the
    buffer is written out: on a write that the buffering policy says so,
    and when the file object is closed. *)
Record FileHandle := {
  fh_path : string;
  fh_pos : nat;
  fh_pending : list byte;
  fh_closed : bool;
}.

(** [flush_policy held given] is what a write of [given] bytes does on a
    file object that holds [held] bytes back; it depends on the buffer
    size of the platform and on the Python version. *)
Record World := {
  trace : list effect;
  next_session : nat;
  files : gmap string (list byte);
  handles : list FileHandle;
  flush_policy : nat -> nat -> flush;
}.

(** [Task]: lines 52-67. [task_file] is the index of the file object in
    [handles]. *)
Record Task := {
  task_session : pyval;
  task_path : string;
  task_size : pyval;
  task_file : nat;
}.

(** The attributes of an [IPADump] object.  [plugins], [script] and
    [agent_source] do not exist until [dump] / [load_agent] assign
    them. *)
Record IPADump := {
  session : option Session;
  tasks : gmap pyval Task;
  output : option string;
  verbose : bool;
  opt : Options;
  ipa_name : string;
  plugins : option (list string);
  script : option Script;
  agent_source : option string;
}.

Record St := {
  self : IPADump;
  world : World;
}.

(** ** The monad: state and exceptions

    A raised exception keeps the state reached so far, as in Python. *)
Definition M (A : Type) : Type := St -> (exn + A) * St.

Definition ret {A} (a : A) : M A := fun st => (inr a, st).

Definition raise {A} (e : exn) : M A := fun st => (inl e, st).

Definition bind {A B} (m : M A) (k : A -> M B) : M B :=
  fun st =>
    match m st with
    | (inr a, st') => k a st'
    | (inl e, st') => (inl e, st')
    end.

Declare Scope py_scope.
Delimit Scope py_scope with py.
Notation "x <- m ;; k" := (bind m (fun x => k))
  (at level 100, m at next level, right associativity) : py_scope.
Notation "m ;; k" := (bind m (fun _ => k))
  (at level 100, right associativity) : py_scope.
Local Open Scope py_scope.

Definition lift {A} (r : exn + A) : M A :=
  match r with inl e => raise e | inr a => ret a end.

Definition get_self : M IPADump := fun st => (inr (self st), st).

Definition set_self (f : IPADump -> IPADump) : M unit :=
  fun st => (inr tt, {| self := f (self st); world := world st |}).

Definition get_world : M World := fun st => (inr (world st), st).

Definition set_world (f : World -> World) : M unit :=
  fun st => (inr tt, {| self := self st; world := f (world st) |}).

Definition emit (e : effect) : M unit :=
  set_world (fun w => {| trace := trace w ++ [e];
                         next_session := next_session w;
                         files := files w;
                         handles := handles w;
                         flush_policy := flush_policy w |}).

Definition print (items : list pitem) : M unit := emit (Print items).

(** ** Files *)

(** Bytes of the file after [data] is written at offset [pos]; a gap
    past the end reads as zeros. *)
Definition write_at (pos : nat) (data content : list byte) : list byte :=
  take pos (content ++ replicate (pos - length content) x00)
  ++ data ++ drop (pos + length data) content.

(** The files once the bytes [data] that a file object at offset [pos]
    holds back are written out; with nothing held back nothing is
    written. *)
Definition flushed (path : string) (pos : nat) (data : list byte)
    (fs : gmap string (list byte)) : gmap string (list byte) :=
  match data with
  | [] => fs
  | _ => <[path := write_at pos data (default [] (fs !! path))]> fs
  end.

(** The policy of CPython's buffered writer with a buffer of [size]
    bytes: bytes that fit in what is left of the buffer are kept; else
    the buffer is written out first, and the new bytes are kept if the
    buffer can take them, written out if not. *)
Definition cpython_buffering (size held given : nat) : flush :=
  if (given <=? size - held)%nat then KeepAll
  else if (given <=? size)%nat then FlushBuffer
  else FlushAll.

(** [open(path, 'wb')]: creates or truncates the file, new file object
    at offset 0 with nothing held back. *)
Definition file_open_wb (path : string) : M nat :=
  w <- get_world ;;
  let fd := length (handles w) in
  set_world (fun w => {| trace := trace w ++ [FileOpen path fd];
                         next_session := next_session w;
                         files := <[path := []]> (files w);
                         handles := handles w ++
                           [{| fh_path := path; fh_pos := 0%nat;
                               fh_pending := []; fh_closed := false |}];
                         flush_policy := flush_policy w |}) ;;
  ret fd.

(** [file.write(data)]: [TypeError] when [data] is [None], [ValueError]
    on a closed file.  The bytes go to the buffer of the file object or
    to the file, as the buffering policy says. *)
Definition file_write (fd : nat) (data : option (list byte)) : M unit :=
  match data with
  | None => raise TypeError
  | Some bytes =>
    w <- get_world ;;
    match handles w !! fd with
    | None => raise ValueError
    | Some h =>
      if fh_closed h then raise ValueError
      else
        let '(out, kept) :=
          match flush_policy w (length (fh_pending h)) (length bytes) with
          | KeepAll => ([], fh_pending h ++ bytes)
          | FlushBuffer => (fh_pending h, bytes)
          | FlushAll => (fh_pending h ++ bytes, [])
          end%list in
        set_world (fun w =>
          {| trace := trace w ++ [FileWrite fd bytes];
             next_session := next_session w;
             files := flushed (fh_path h) (fh_pos h) out (files w);
             handles := <[fd := {| fh_path := fh_path h;
                                   fh_pos := (fh_pos h + length out)%nat;
                                   fh_pending := kept;
                                   fh_closed := false |}]> (handles w);
             flush_policy := flush_policy w |})
    end
  end.

(** What closing does to an open file object: the bytes held back are
    written out. *)
Definition closed_handle (h : FileHandle) : FileHandle :=
  {| fh_path := fh_path h;
     fh_pos := (fh_pos h + length (fh_pending h))%nat;
     fh_pending := [];
     fh_closed := true |}.

(** [file.close()]: writes out what the file object holds back; closing
    twice is allowed and does nothing the second time. *)
Definition file_close (fd : nat) : M unit :=
  set_world (fun w =>
    {| trace := trace w ++ [FileClose fd];
       next_session := next_session w;
       files := match handles w !! fd with
                | Some h =>
                  if fh_closed h then files w
                  else flushed (fh_path h) (fh_pos h) (fh_pending h) (files w)
                | None => files w
                end;
       handles := match handles w !! fd with
                  | Some h =>
                    if fh_closed h then handles w
                    else <[fd := closed_handle h]> (handles w)
                  | None => handles w
                  end;
       flush_policy := flush_policy w |}).

(** ** [Task] (lines 52-67) *)

Definition Task_init (session : pyval) (path : string) (size : pyval)
  : M Task :=
  fd <- file_open_wb path ;;
  ret {| task_session := session; task_path := path;
         task_size := size; task_file := fd |}.

Definition Task_write (t : Task) (data : option (list byte)) : M unit :=
  file_write (task_file t) data.

Definition Task_close (t : Task) : M unit := file_close (task_file t).

Definition Task_finish (t : Task) : M unit := Task_close t.

(** A [Task] that nothing refers to any more.  CPython frees it at once
    (reference counting), and with it the file object, whose finalizer
    closes it when it is still open: the bytes held back are written
    out.  On a file object that is closed already nothing happens.  The
    close shows in the trace as [FileClose], like a call of
    [close()]. *)
Definition Task_dropped (t : Task) : M unit :=
  w <- get_world ;;
  match handles w !! task_file t with
  | Some h => if fh_closed h then ret tt else file_close (task_file t)
  | None => ret tt
  end.

(** ** The download handlers (lines 85-99) *)

Definition set_tasks (f : gmap pyval Task -> gmap pyval Task) : M unit :=
  set_self (fun s =>
    {| session := session s; tasks := f (tasks s); output := output s;
       verbose := verbose s; opt := opt s; ipa_name := ipa_name s;
       plugins := plugins s; script := script s;
       agent_source := agent_source s |}).

(** [self.tasks[session]] *)
Definition tasks_getitem (session : pyval) : M Task :=
  k <- lift (hash_key session) ;;
  s <- get_self ;;
  match tasks s !! k with
  | Some t => ret t
  | None => raise KeyError
  end.

(** [self.tasks[session] = Task(session, self.ipa_name, size)]: the
    [Task] is built first; storing it hashes the key.  When the key
    cannot be hashed the new [Task] is dropped; when the key had a task
    already, that task is dropped once the new one is in the map. *)
Definition on_download_start (session size : pyval) : M unit :=
  s <- get_self ;;
  t <- Task_init session (ipa_name s) size ;;
  match hash_key session with
  | inl e => Task_dropped t ;; raise e
  | inr k =>
    set_tasks (fun m => <[k := t]> m) ;;
    match tasks s !! k with
    | Some old => Task_dropped old
    | None => ret tt
    end
  end.

Definition on_download_data (session : pyval) (data : option (list byte))
  : M unit :=
  t <- tasks_getitem session ;;
  Task_write t data.

Definition close_session (session : pyval) : M unit :=
  t <- tasks_getitem session ;;
  Task_finish t ;;
  k <- lift (hash_key session) ;;
  s <- get_self ;;
  match tasks s !! k with
  | Some gone => set_tasks (fun m => delete k m) ;; Task_dropped gone
  | None => raise KeyError
  end.

Definition on_download_finish (session : pyval) : M unit :=
  close_session session.

Definition on_download_error (session : pyval) : M unit :=
  close_session session.

(** ** The message router (lines 101-123) *)

Inductive method :=
| m_on_download_start
| m_on_download_data
| m_on_download_finish
| m_on_download_error.

(** [method_mapping[event]], where [event] is [payload.get('event')]. *)
Definition method_mapping (event : option pyval) : exn + method :=
  match event with
  | Some (VStr ev) =>
    if String.eqb ev "start" then inr m_on_download_start
    else if String.eqb ev "data" then inr m_on_download_data
    else if String.eqb ev "end" then inr m_on_download_finish
    else if String.eqb ev "error" then inr m_on_download_error
    else inl KeyError
  | Some (VComposite _) => inl TypeError
  | _ => inl KeyError
  end.

(** A keyword argument the method declares and the call must supply. *)
Definition kwarg (d : gmap string pyval) (name : string) : exn + pyval :=
  match d !! name with
  | Some v => inr v
  | None => inl TypeError
  end.

(** [method(data=data, **payload)]: [data] may not come twice, [self] is
    already bound, the declared parameters must be present, everything
    else goes to [**kwargs]. *)
Definition call_method (m : method) (data : option (list byte))
    (d : gmap string pyval) : M unit :=
  match d !! "data" with
  | Some _ => raise TypeError
  | None =>
    match d !! "self" with
    | Some _ => raise TypeError
    | None =>
      match m with
      | m_on_download_start =>
        session <- lift (kwarg d "session") ;;
        size <- lift (kwarg d "size") ;;
        on_download_start session size
      | m_on_download_data =>
        session <- lift (kwarg d "session") ;;
        on_download_data session data
      | m_on_download_finish =>
        session <- lift (kwarg d "session") ;;
        on_download_finish session
      | m_on_download_error =>
        session <- lift (kwarg d "session") ;;
        on_download_error session
      end
    end
  end.

Definition is_str (v : option pyval) (s : string) : bool :=
  match v with
  | Some (VStr s') => String.eqb s' s
  | _ => false
  end.

Definition on_message (msg : Message) (data : option (list byte))
  : M unit :=
  if negb (is_str (msg_type msg) "send") then
    print [PText "unknown message:"; PMsg msg]
  else
    match default (PDict ∅) (msg_payload msg) with
    | POther _ => raise AttributeError
    | PDict payload =>
      let subject := payload !! "subject" in
      if is_str subject "download" then
        method <- lift (method_mapping (payload !! "event")) ;;
        call_method method data payload
      else if is_str subject "finish" then
        print [PText "bye"] ;;
        s <- get_self ;;
        match session s with
        | None => raise AttributeError
        | Some primary =>
          emit (Detach primary) ;;
          raise (SystemExit 0)
        end
      else
        print [PText "unknown message"] ;;
        print [PMsg msg]
    end.

(** Messages are delivered one after the other.  An exception raised by
    the handler is reported by the frida binding and ends that delivery
    only: the state it reached stays and the next message is delivered.
    [SystemExit] ends the process: nothing is delivered after it.  The
    result lists the outcome of every delivery made. *)
Fixpoint deliver (msgs : list (Message * option (list byte))) (st : St)
  : list (exn + unit) * St :=
  match msgs with
  | [] => ([], st)
  | (msg, data) :: rest =>
    let '(r, st1) := on_message msg data st in
    match r with
    | inl (SystemExit _) => ([r], st1)
    | _ =>
      let '(rs, st2) := deliver rest st1 in
      (r :: rs, st2)
    end
  end.

(** ** Python sets *)

(** A [set] is kept as the list of its elements, without duplicates;
    the order in which Python iterates over it depends on the hashes and
    is given from outside, as a list of choices: the next element is the
    one at position [choice mod size] among those left. *)
Definition set_add {A} `{EqDecision A} (x : A) (s : list A) : list A :=
  if decide (x ∈ s) then s else (s ++ [x])%list.

Fixpoint iter_order {A} (n : nat) (choices : list nat) (s : list A)
  : list A :=
  match n with
  | O => []
  | S n' =>
    let i := (hd 0%nat choices `mod` length s)%nat in
    match s !! i with
    | Some x => x :: iter_order n' (tl choices) (delete i s)
    | None => []
    end
  end.

Definition set_iter {A} (choices : list nat) (s : list A) : list A :=
  iter_order (length s) choices s.

(** [set.intersection] applied to the unpacked list: needs at least one
    set. *)
Definition set_intersection (sets : list (gset string))
  : exn + gset string :=
  match sets with
  | [] => inl TypeError
  | X :: rest => inr (foldl (∩) X rest)
  end.

(** [s.pop()]: some element of the set, [KeyError] when it is empty. *)
Definition set_pop (choice : nat) (s : gset string) : exn + string :=
  match elements s !! (choice `mod` size s)%nat with
  | Some x => inr x
  | None => inl KeyError
  end.

(** ** The device and the agents *)

(** What the device, the agents and the Python runtime answer.  Every
    call returns, except [device.attach('pkd')], whose
    [ProcessNotFoundError] the program handles. *)
Record Env := {
  app_pid : Z;
  app_identifier : string;
  app_name : string;
  frontmost : option Z;
  spawn_pid : program -> Z;
  pkd_running : bool;
  pkd_started : bool;
  agent_dist : string;
  is_dir : string -> bool;
  agent_plugins : list string;
  agent_root : string;
  agent_data : string;
  agent_launch : string -> Z;
  agent_groups : Session -> list string;
  agent_path_for_group : string -> string;
  agent_decrypt : Session -> string -> string -> manifest;
  hash_order : list nat;
  pop_choice : nat;
}.

(** [namedtuple('Plugin', ['id', 'session', 'pid', 'script'])] *)
Record Plugin := {
  plugin_id : string;
  plugin_session : Session;
  plugin_pid : Z;
  plugin_script : Script;
}.

#[global] Instance Plugin_eq_dec : EqDecision Plugin.
Proof. solve_decision. Defined.

Definition pid_truthy (pid : Z) : bool := negb (pid =? 0)%Z.

(** [try: m except exc: handler] *)
Definition try_except {A} (m : M A) (exc : exn) (handler : M A) : M A :=
  fun st =>
    match m st with
    | (inl e, st') => if decide (e = exc) then handler st' else (inl e, st')
    | r => r
    end.

(** An attribute that may not have been assigned yet. *)
Definition getattr {A} (f : IPADump -> option A) : M A :=
  s <- get_self ;;
  match f s with
  | Some a => ret a
  | None => raise AttributeError
  end.

Definition new_session (t : target) : M Session :=
  w <- get_world ;;
  set_world (fun w => {| trace := trace w ++ [Attach t];
                         next_session := S (next_session w);
                         files := files w;
                         handles := handles w;
                         flush_policy := flush_policy w |}) ;;
  ret {| sess_id := next_session w; sess_target := t |}.

(** [device.attach(pid)] *)
Definition device_attach (pid : Z) : M Session := new_session (ByPid pid).

(** [device.attach(name)]: the process may not be there. *)
Definition device_attach_name (name : string) (found : bool) : M Session :=
  if found then new_session (ByName name)
  else emit (Attach (ByName name)) ;; raise ProcessNotFoundError.

Definition create_script (s : Session) : M Script :=
  _ <- getattr agent_source ;;
  emit (CreateScript s) ;;
  ret {| script_session := s |}.

Definition export (s : Script) (c : export_call) : M unit :=
  emit (Export s c).

Definition set_opt_dest (container : string) : M unit :=
  set_self (fun s =>
    {| session := session s; tasks := tasks s; output := output s;
       verbose := verbose s;
       opt := {| keepWatch := keepWatch (opt s); dest := Some container |};
       ipa_name := ipa_name s; plugins := plugins s; script := script s;
       agent_source := agent_source s |}).

Definition set_plugins_script (ps : list string) (sc : Script) : M unit :=
  set_self (fun s =>
    {| session := session s; tasks := tasks s; output := output s;
       verbose := verbose s; opt := opt s; ipa_name := ipa_name s;
       plugins := Some ps; script := Some sc;
       agent_source := agent_source s |}).

Definition set_agent_source (src : string) : M unit :=
  set_self (fun s =>
    {| session := session s; tasks := tasks s; output := output s;
       verbose := verbose s; opt := opt s; ipa_name := ipa_name s;
       plugins := plugins s; script := script s;
       agent_source := Some src |}).

Definition set_ipa_name (name : string) : M unit :=
  set_self (fun s =>
    {| session := session s; tasks := tasks s; output := output s;
       verbose := verbose s; opt := opt s; ipa_name := name;
       plugins := plugins s; script := script s;
       agent_source := agent_source s |}).

(** [IPADump.__init__] (lines 72-83) *)
Definition IPADump_init (output : option string) (verbose keep_watch : bool)
  : IPADump :=
  {| session := None; tasks := ∅; output := output; verbose := verbose;
     opt := {| keepWatch := keep_watch; dest := None |};
     ipa_name := ""; plugins := None; script := None;
     agent_source := None |}.

Section Orchestration.

Variable env : Env.

(** [on_console], the closure of [dump] (lines 126-129) *)
Definition on_console (level text : string) : M unit :=
  s <- get_self ;;
  if negb (verbose s) && String.eqb level "info" then ret tt
  else print [PText ("[" ++ level ++ "]"); PText text].

(** The first loop of [dump_with_plugins] (lines 179-188). *)
Fixpoint launch_plugins (identifiers : list string)
    (spawned : list Plugin) (all_groups : list (gset string))
  : M (list Plugin * list (gset string)) :=
  match identifiers with
  | [] => ret (spawned, all_groups)
  | identifier :: rest =>
    host <- getattr script ;;
    export host (XLaunch identifier) ;;
    let pid := agent_launch env identifier in
    print [PText ("plugin " ++ identifier ++ ", pid=" ++ pretty pid)] ;;
    session <- device_attach pid ;;
    scr <- create_script session ;;
    emit (Load scr) ;;
    let plugin := {| plugin_id := identifier; plugin_session := session;
                     plugin_pid := pid; plugin_script := scr |} in
    export scr XGroups ;;
    launch_plugins rest (set_add plugin spawned)
      (all_groups ++ [list_to_set (agent_groups env session)])%list
  end.

(** The second loop of [dump_with_plugins] (lines 205-208). *)
Fixpoint decrypt_plugins (order : list Plugin) (root container : string)
    (decrypted : manifest) : M manifest :=
  match order with
  | [] => ret decrypted
  | plugin :: rest =>
    export (plugin_script plugin) (XDecrypt root container) ;;
    let decrypted :=
      (decrypted ++
       agent_decrypt env (plugin_session plugin) root container)%list in
    emit (Detach (plugin_session plugin)) ;;
    emit (Kill (plugin_pid plugin)) ;;
    decrypt_plugins rest root container decrypted
  end.

(** [IPADump.dump_with_plugins] (lines 163-210) *)
Definition dump_with_plugins : M unit :=
  pkd <- try_except (device_attach_name "pkd" (pkd_running env))
           ProcessNotFoundError
           (emit (Spawn (Argv ["/bin/launchctl"; "start";
                               "com.apple.pluginkit.pkd"])) ;;
            let pid := spawn_pid env (Argv ["/bin/launchctl"; "start";
                                            "com.apple.pluginkit.pkd"]) in
            emit (Resume pid) ;;
            device_attach_name "pkd" (pkd_started env)) ;;
  pkd_script <- create_script pkd ;;
  emit (Load pkd_script) ;;
  export pkd_script (XSkipPkdValidationFor (app_pid env)) ;;
  identifiers <- getattr plugins ;;
  launched <- launch_plugins identifiers [] [] ;;
  let spawned := launched.1 in
  let all_groups := launched.2 in
  emit (Detach pkd) ;;
  common <- lift (set_intersection all_groups) ;;
  group <- lift (set_pop (pop_choice env) common) ;;
  if negb (str_truthy group) then
    raise (RuntimeError ("App includes extension, but no valid " ++
                         "app group found. Please file a bug to Github"))
  else
    host <- getattr script ;;
    export host XRoot ;;
    let root := agent_root env in
    host <- getattr script ;;
    export host (XPathForGroup group) ;;
    let container := agent_path_for_group env group in
    s <- get_self ;;
    (if verbose s then
       print [PText "group:"; PText group] ;;
       print [PText "container:"; PText container] ;;
       print [PText "root:"; PText root]
     else ret tt) ;;
    set_opt_dest container ;;
    host <- getattr script ;;
    export host (XDecrypt root container) ;;
    let decrypted :=
      agent_decrypt env (script_session host) root container in
    decrypted <- decrypt_plugins (set_iter (hash_order env) spawned)
                   root container decrypted ;;
    host <- getattr script ;;
    s <- get_self ;;
    export host (XArchive root container decrypted (opt s)).

(** The first part of [IPADump.dump] (lines 131-144): the primary
    session. *)
Definition dump_attach : M Session :=
  on_console "info" "attaching to target" ;;
  let pid := app_pid env in
  let spawn := negb (pid_truthy pid) in
  emit GetFrontmost ;;
  let front := frontmost env in
  spawn <- (if pid_truthy pid &&
               match front with
               | Some front_pid => negb (front_pid =? pid)%Z
               | None => false
               end
            then emit (Kill pid) ;; ret true
            else ret spawn) ;;
  if spawn : bool then
    emit (Spawn (Bundle (app_identifier env))) ;;
    let pid := spawn_pid env (Bundle (app_identifier env)) in
    session <- device_attach pid ;;
    emit (Resume pid) ;;
    ret session
  else
    device_attach pid.

(** The second part of [IPADump.dump] (lines 146-161): the script, the
    plugins, the dump itself. *)
Definition dump_session (session : Session) : M unit :=
  scr <- create_script session ;;
  emit (SetLogHandler scr) ;;
  emit (OnMessage scr) ;;
  emit (Load scr) ;;
  export scr XPlugins ;;
  set_plugins_script (agent_plugins env) scr ;;
  identifiers <- getattr plugins ;;
  (if (0 <? length identifiers)%nat then
     dump_with_plugins
   else
     host <- getattr script ;;
     export host XRoot ;;
     let root := agent_root env in
     host <- getattr script ;;
     export host XData ;;
     let container := agent_data env ++ "/tmp" in
     host <- getattr script ;;
     export host (XDecrypt root container) ;;
     let decrypted :=
       agent_decrypt env (script_session host) root container in
     host <- getattr script ;;
     s <- get_self ;;
     export host (XArchive root container decrypted (opt s))) ;;
  emit (Detach session).

(** [IPADump.dump] (lines 125-161) *)
Definition dump : M unit :=
  session <- dump_attach ;;
  dump_session session.

(** [IPADump.load_agent] (lines 212-215) *)
Definition load_agent : M unit :=
  emit ReadAgent ;;
  set_agent_source (agent_dist env).

(** [os.path.join(a, b)] *)
Definition path_join (a b : string) : string :=
  if String.prefix "/" b then b
  else if String.eqb a "" then b
  else if String.eqb (String.substring (String.length a - 1) 1 a) "/"
       then a ++ b
  else a ++ "/" ++ b.

(** [IPADump.run] (lines 217-229) *)
Definition run : M unit :=
  load_agent ;;
  s <- get_self ;;
  let name :=
    match output s with
    | None => app_name env ++ "." ++ "ipa"
    | Some out =>
      if is_dir env out then path_join out (app_name env ++ "." ++ "ipa")
      else out
    end in
  set_ipa_name name ;;
  dump ;;
  print [PText ("Output: " ++ name)].

End Orchestration.

(** ** Download events as the agent sends them *)

Definition download_payload (event : string) (session : pyval)
  : gmap string pyval :=
  <["subject" := VStr "download"]>
    (<["event" := VStr event]> (<["session" := session]> ∅)).

Definition msg_send (d : gmap string pyval) : Message :=
  {| msg_type := Some (VStr "send"); msg_payload := Some (PDict d) |}.

Definition ev_start (key size : pyval) : Message * option (list byte) :=
  (msg_send (<["size" := size]> (download_payload "start" key)), None).

Definition ev_data (key : pyval) (bytes : list byte)
  : Message * option (list byte) :=
  (msg_send (download_payload "data" key), Some bytes).

Definition ev_end (key : pyval) : Message * option (list byte) :=
  (msg_send (download_payload "end" key), None).

Definition ev_error (key : pyval) : Message * option (list byte) :=
  (msg_send (download_payload "error" key), None).

Definition msg_finish : Message :=
  msg_send (<["subject" := VStr "finish"]> ∅).

(** ** Reading the trace *)

(** The effects added between two states. *)
Definition effects_since (st st' : St) : list effect :=
  drop (length (trace (world st))) (trace (world st')).

Definition is_close (fd : nat) (e : effect) : bool :=
  match e with
  | FileClose fd' => Nat.eqb fd fd'
  | _ => false
  end.

Definition is_export (p : export_call -> bool) (e : effect) : bool :=
  match e with
  | Export _ c => p c
  | _ => false
  end.

Definition is_decrypt (c : export_call) : bool :=
  match c with XDecrypt _ _ => true | _ => false end.

Definition is_archive (c : export_call) : bool :=
  match c with XArchive _ _ _ _ => true | _ => false end.

Definition is_launch (c : export_call) : bool :=
  match c with XLaunch _ => true | _ => false end.

Definition is_groups (c : export_call) : bool :=
  match c with XGroups => true | _ => false end.

Definition is_path_for_group (c : export_call) : bool :=
  match c with XPathForGroup _ => true | _ => false end.

Definition is_attach (e : effect) : bool :=
  match e with Attach _ => true | _ => false end.

Definition is_kill (e : effect) : bool :=
  match e with Kill _ => true | _ => false end.

Definition is_print (e : effect) : bool :=
  match e with Print _ => true | _ => false end.

Definition count (p : effect -> bool) (tr : list effect) : nat :=
  length (filter (fun e => p e = true) tr).

(** The scripts on which [decrypt] was called, in call order. *)
Definition decrypt_calls (tr : list effect) : list Script :=
  omap (fun e => match e with
                 | Export s (XDecrypt _ _) => Some s
                 | _ => None
                 end) tr.

(** The manifests handed to [archive], in call order. *)
Definition archive_calls (tr : list effect) : list manifest :=
  omap (fun e => match e with
                 | Export _ (XArchive _ _ m _) => Some m
                 | _ => None
                 end) tr.

(** The groups handed to [path_for_group], in call order. *)
Definition group_calls (tr : list effect) : list string :=
  omap (fun e => match e with
                 | Export _ (XPathForGroup g) => Some g
                 | _ => None
                 end) tr.

(** The sessions detached, in call order. *)
Definition detach_calls (tr : list effect) : list Session :=
  omap (fun e => match e with Detach s => Some s | _ => None end) tr.

(** The pids killed, in call order. *)
Definition kill_calls (tr : list effect) : list Z :=
  omap (fun e => match e with Kill pid => Some pid | _ => None end) tr.

(** The device and agent calls, without the console output. *)
Definition calls (tr : list effect) : list effect :=
  filter (fun e => is_print e = false) tr.

(** ** The download manager, one delivery at a time *)

Definition closes_nothing (es : list effect) : Prop :=
  forall fd, FileClose fd ∉ es.

(** The file object that a "start" opens. *)
Definition new_handle (st : St) : FileHandle :=
  {| fh_path := ipa_name (self st); fh_pos := 0%nat; fh_pending := [];
     fh_closed := false |}.

(** The task that a "start" builds. *)
Definition new_task (key size : pyval) (st : St) : Task :=
  {| task_session := key; task_path := ipa_name (self st);
     task_size := size; task_file := length (handles (world st)) |}.

(** What one delivery can do to the state: nothing to the files
    ([step_quiet]); a "start" that puts a task in the map and drops
    nothing open ([step_open]), one that replaces a task whose file
    object is open ([step_replace]), one whose key cannot be hashed
    ([step_rejected]); a "data" ([step_write]); an "end" or an "error"
    ([step_close]). *)
Inductive step (st st' : St) : Prop :=
| step_quiet es :
    self st' = self st ->
    trace (world st') = (trace (world st) ++ es)%list ->
    closes_nothing es ->
    files (world st') = files (world st) ->
    handles (world st') = handles (world st) ->
    step st st'
| step_open k key size :
    session (self st') = session (self st) ->
    ipa_name (self st') = ipa_name (self st) ->
    tasks (self st') = <[k := new_task key size st]> (tasks (self st)) ->
    trace (world st') =
      (trace (world st) ++
       [FileOpen (ipa_name (self st)) (length (handles (world st)))])%list ->
    handles (world st') = (handles (world st) ++ [new_handle st])%list ->
    step st st'
| step_replace k key size old h :
    tasks (self st) !! k = Some old ->
    (handles (world st) ++ [new_handle st])%list !! task_file old = Some h ->
    fh_closed h = false ->
    session (self st') = session (self st) ->
    ipa_name (self st') = ipa_name (self st) ->
    tasks (self st') = <[k := new_task key size st]> (tasks (self st)) ->
    trace (world st') =
      (trace (world st) ++
       [FileOpen (ipa_name (self st)) (length (handles (world st)));
        FileClose (task_file old)])%list ->
    handles (world st') =
      <[task_file old := closed_handle h]>
        (handles (world st) ++ [new_handle st])%list ->
    step st st'
| step_rejected :
    self st' = self st ->
    trace (world st') =
      (trace (world st) ++
       [FileOpen (ipa_name (self st)) (length (handles (world st)));
        FileClose (length (handles (world st)))])%list ->
    handles (world st') =
      (handles (world st) ++ [closed_handle (new_handle st)])%list ->
    step st st'
| step_write k t h h' bytes :
    tasks (self st) !! k = Some t ->
    handles (world st) !! task_file t = Some h ->
    self st' = self st ->
    trace (world st') =
      (trace (world st) ++ [FileWrite (task_file t) bytes])%list ->
    fh_closed h' = false ->
    handles (world st') = <[task_file t := h']> (handles (world st)) ->
    step st st'
| step_close k t :
    tasks (self st) !! k = Some t ->
    session (self st') = session (self st) ->
    ipa_name (self st') = ipa_name (self st) ->
    tasks (self st') = delete k (tasks (self st)) ->
    trace (world st') =
      (trace (world st) ++ [FileClose (task_file t)])%list ->
    handles (world st') =
      match handles (world st) !! task_file t with
      | Some h =>
        if fh_closed h then handles (world st)
        else <[task_file t := closed_handle h]> (handles (world st))
      | None => handles (world st)
      end ->
    step st st'.

(** The invariant of the download manager. *)
Record wf (st : St) : Prop := {
  wf_closes : forall fd,
    FileClose fd ∈ trace (world st) -> (fd < length (handles (world st)))%nat;
  wf_path : forall k t,
    tasks (self st) !! k = Some t -> task_path t = ipa_name (self st);
  wf_open : forall k t,
    tasks (self st) !! k = Some t ->
    exists h, handles (world st) !! task_file t = Some h /\
              fh_closed h = false;
  wf_unclosed : forall k t,
    tasks (self st) !! k = Some t ->
    FileClose (task_file t) ∉ trace (world st);
  wf_owner : forall k k' t t',
    tasks (self st) !! k = Some t -> tasks (self st) !! k' = Some t' ->
    task_file t = task_file t' -> k = k';
}.

(** A file object that no task holds any more, in the state [h] and
    after [n] closes. *)
Record retired (fd : nat) (h : FileHandle) (n : nat) (st : St) : Prop := {
  retired_handle : handles (world st) !! fd = Some h;
  retired_closes : count (is_close fd) (trace (world st)) = n;
  retired_unheld : forall k t,
    tasks (self st) !! k = Some t -> task_file t <> fd;
}.


(** ** The orchestration, read off the code

    The definitions below name what the loops of [dump_with_plugins]
    produce, so that the theorems can speak about it. *)

(** The state after the effects [es] and [n] more sessions. *)
Definition log (es : list effect) (n : nat) (st : St) : St :=
  {| self := self st;
     world := {| trace := trace (world st) ++ es;
                 next_session := next_session (world st) + n;
                 files := files (world st);
                 handles := handles (world st);
                 flush_policy := flush_policy (world st) |} |}.

(** The [Plugin] tuple that the first loop builds for [identifier] when
    [n] is the number of the session it attaches. *)
Definition mk_plugin (env : Env) (n : nat) (identifier : string) : Plugin :=
  let session := {| sess_id := n;
                    sess_target := ByPid (agent_launch env identifier) |} in
  {| plugin_id := identifier; plugin_session := session;
     plugin_pid := agent_launch env identifier;
     plugin_script := {| script_session := session |} |}.

(** The plugins in launch order, sessions numbered from [n]. *)
Fixpoint launched (env : Env) (n : nat) (identifiers : list string)
  : list Plugin :=
  match identifiers with
  | [] => []
  | identifier :: rest =>
    mk_plugin env n identifier :: launched env (S n) rest
  end.

(** What one round of the first loop does. *)
Definition launch_effects (host : Script) (p : Plugin) : list effect :=
  [Export host (XLaunch (plugin_id p));
   Print [PText ("plugin " ++ plugin_id p ++ ", pid=" ++
                 pretty (plugin_pid p))];
   Attach (ByPid (plugin_pid p));
   CreateScript (plugin_session p);
   Load (plugin_script p);
   Export (plugin_script p) XGroups].

(** What one round of the second loop does. *)
Definition teardown_effects (root container : string) (p : Plugin)
  : list effect :=
  [Export (plugin_script p) (XDecrypt root container);
   Detach (plugin_session p);
   Kill (plugin_pid p)].

(** [set(script.exports.groups())] of a plugin. *)
Definition plugin_groups (env : Env) (p : Plugin) : gset string :=
  list_to_set (agent_groups env (plugin_session p)).

(** The groups that all the plugins declare. *)
Definition common_groups (env : Env) (ps : list Plugin) : gset string :=
  match set_intersection (map (plugin_groups env) ps) with
  | inr common => common
  | inl _ => ∅
  end.

(** The manifest of a plugin. *)
Definition plugin_manifest (env : Env) (root container : string)
    (p : Plugin) : manifest :=
  agent_decrypt env (plugin_session p) root container.

(** The primary session: the pid that [dump] attaches to and the device
    calls it makes on the way (lines 132-144). *)
Definition running (env : Env) : bool := pid_truthy (app_pid env).

Definition displaced (env : Env) : bool :=
  running env &&
  match frontmost env with
  | Some front_pid => negb (front_pid =? app_pid env)%Z
  | None => false
  end.

Definition primary_pid (env : Env) : Z :=
  if running env && negb (displaced env) then app_pid env
  else spawn_pid env (Bundle (app_identifier env)).

Definition primary_calls (env : Env) : list effect :=
  if negb (running env) then
    [GetFrontmost; Spawn (Bundle (app_identifier env));
     Attach (ByPid (primary_pid env)); Resume (primary_pid env)]
  else if displaced env then
    [GetFrontmost; Kill (app_pid env);
     Spawn (Bundle (app_identifier env));
     Attach (ByPid (primary_pid env)); Resume (primary_pid env)]
  else
    [GetFrontmost; Attach (ByPid (app_pid env))].

(** What [on_console('info', ...)] prints. *)
Definition console_info (st : St) (text : string) : list effect :=
  if verbose (self st) then [Print [PText "[info]"; PText text]] else [].

(** Reaching the pluginkit daemon (lines 165-171). *)
Definition launchctl : program :=
  Argv ["/bin/launchctl"; "start"; "com.apple.pluginkit.pkd"].

Definition pkd_calls (env : Env) : list effect :=
  if pkd_running env then [Attach (ByName "pkd")]
  else [Attach (ByName "pkd"); Spawn launchctl;
        Resume (spawn_pid env launchctl); Attach (ByName "pkd")].

(** Everything [dump] does on the plugin path up to and including
    [pkd.detach()] (line 190), started in the state [st]. *)
Definition plugin_setup (env : Env) (st : St) : list effect :=
  let n := next_session (world st) in
  let primary := {| sess_id := n; sess_target := ByPid (primary_pid env) |} in
  let host := {| script_session := primary |} in
  let pkd := {| sess_id := S n; sess_target := ByName "pkd" |} in
  let pkd_script := {| script_session := pkd |} in
  (console_info st "attaching to target" ++ primary_calls env ++
   [CreateScript primary; SetLogHandler host; OnMessage host; Load host;
    Export host XPlugins] ++
   pkd_calls env ++
   [CreateScript pkd; Load pkd_script;
    Export pkd_script (XSkipPkdValidationFor (app_pid env))] ++
   flat_map (launch_effects host)
     (launched env (S (S n)) (agent_plugins env)) ++
   [Detach pkd])%list.

(** What follows once the group [group] is resolved (lines 196-210 and
    161), the plugins being taken in the order [order]. *)
Definition plugin_dump (env : Env) (st : St) (group : string)
    (order : list Plugin) : list effect :=
  let n := next_session (world st) in
  let primary := {| sess_id := n; sess_target := ByPid (primary_pid env) |} in
  let host := {| script_session := primary |} in
  let root := agent_root env in
  let container := agent_path_for_group env group in
  ([Export host XRoot; Export host (XPathForGroup group)] ++
   (if verbose (self st) then
      [Print [PText "group:"; PText group];
       Print [PText "container:"; PText container];
       Print [PText "root:"; PText root]]
    else []) ++
   [Export host (XDecrypt root container)] ++
   flat_map (teardown_effects root container) order ++
   [Export host
      (XArchive root container
         (agent_decrypt env primary root container ++
          concat (map (plugin_manifest env root container) order))
         {| keepWatch := keepWatch (opt (self st));
            dest := Some container |});
    Detach primary])%list.

(** The message of the [RuntimeError] of lines 193-194. *)
Definition no_group_message : string :=
  "App includes extension, but no valid app group found. " ++
  "Please file a bug to Github".

(** An effect other than the respawn of the application and the file
    operations of the download manager. *)
Definition quiet (e : effect) : Prop :=
  match e with
  | Spawn (Bundle _) | FileOpen _ _ | FileWrite _ _ | FileClose _ => False
  | _ => True
  end.

(** [st'] comes after [st]: more trace, made of effects in [Q] only,
    and the attributes [session] and [tasks] as they were. *)
Definition extends (Q : effect -> Prop) (st st' : St) : Prop :=
  session (self st') = session (self st) /\
  tasks (self st') = tasks (self st) /\
  exists es, trace (world st') = (trace (world st) ++ es)%list /\
             Forall Q es.

Definition ext (Q : effect -> Prop) {A} (m : M A) : Prop :=
  forall st, extends Q st (m st).2.

(** ** Concrete states *)

(** An empty world, with the usual buffer of 8192 bytes. *)
Definition world0 : World :=
  {| trace := []; next_session := 0; files := ∅; handles := [];
     flush_policy := cpython_buffering (2 ^ 13) |}.

(** A new [IPADump] object in an empty world. *)
Definition st_new : St :=
  {| self := IPADump_init None false false; world := world0 |}.

(** The object once [run] has chosen the output name. *)
Definition st_ipa : St := (set_ipa_name "App.ipa" st_new).2.

(** The stream key that the examples use. *)
Definition key1 : pyval := VStr "stream-1".

(** The object while a first download on [key1] is in flight. *)
Definition st_inflight : St :=
  (deliver [ev_start key1 (VInt 1024); ev_data key1 [x01; x02]] st_ipa).2.

(** ** Concrete environments *)

(** A device on which the application does not run, with the given
    plugins: "ext.x" is launched as pid 201, any other plugin as pid
    202; [groups] says what each plugin session declares. *)
Definition env_with (ids : list string) (groups : Session -> list string)
    (order : list nat) : Env :=
  {| app_pid := 0; app_identifier := "com.example.app"; app_name := "App";
     frontmost := None; spawn_pid := fun _ => 100;
     pkd_running := true; pkd_started := true;
     agent_dist := "agent"; is_dir := fun _ => false;
     agent_plugins := ids; agent_root := "/app"; agent_data := "/data";
     agent_launch := fun id => if String.eqb id "ext.x" then 201 else 202;
     agent_groups := groups;
     agent_path_for_group := fun g => "/groups/" ++ g;
     agent_decrypt := fun s _ _ =>
       match sess_target s with
       | ByPid 201 => [VStr "x.bin"]
       | ByPid 202 => [VStr "y.bin"]
       | _ => [VStr "app.bin"]
       end;
     hash_order := order; pop_choice := 0 |}.

Definition env_example (ids : list string) : Env :=
  env_with ids (fun _ => ["group.a"]) [].

(** Two plugins that both declare the groups "group.a" and "group.b". *)
Definition env_two_groups : Env :=
  env_with ["ext.x"; "ext.y"] (fun _ => ["group.a"; "group.b"]) [].

(** Two plugins with disjoint group sets. *)
Definition env_disjoint : Env :=
  env_with ["ext.x"; "ext.y"]
    (fun s => match sess_target s with
              | ByPid 201 => ["group.a"]
              | _ => ["group.b"]
              end) [].

(** Two plugins with one common group; the set [spawned] iterates in
    the reverse of the insertion order. *)
Definition env_reversed : Env :=
  env_with ["ext.x"; "ext.y"] (fun _ => ["group.a"]) [1%nat].

(** The object once [agent_source] holds the agent, as [load_agent]
    leaves it. *)
Definition st_loaded : St := (set_agent_source "agent" st_new).2.

(** ** More readers of the trace *)

(** The agent calls, in call order, with the script they are made on. *)
Definition export_calls (tr : list effect) : list (Script * export_call) :=
  omap (fun e => match e with Export s c => Some (s, c) | _ => None end) tr.

(** The lines printed. *)
Definition print_calls (tr : list effect) : list (list pitem) :=
  omap (fun e => match e with Print items => Some items | _ => None end) tr.

(** The targets of [device.attach], failed attempts included. *)
Definition attach_calls (tr : list effect) : list target :=
  omap (fun e => match e with Attach t => Some t | _ => None end) tr.

(** The options handed to [archive]. *)
Definition archive_opts (tr : list effect) : list Options :=
  omap (fun e => match e with
                 | Export _ (XArchive _ _ _ o) => Some o
                 | _ => None
                 end) tr.

(** A message that the router hands to the download manager. *)
Definition is_download (msg : Message) : bool :=
  is_str (msg_type msg) "send" &&
  match default (PDict ∅) (msg_payload msg) with
  | PDict d => is_str (d !! "subject") "download"
  | POther _ => false
  end.

(** What the orchestration leaves alone: the output name, the
    constructor's settings, the files and the file objects. *)
Definition keeps (st st' : St) : Prop :=
  ipa_name (self st') = ipa_name (self st) /\
  output (self st') = output (self st) /\
  verbose (self st') = verbose (self st) /\
  keepWatch (opt (self st')) = keepWatch (opt (self st)) /\
  files (world st') = files (world st) /\
  handles (world st') = handles (world st).

Definition kp {A} (m : M A) : Prop := forall st, keeps st (m st).2.

(** The name that [run] gives to the archive (lines 219-225). *)
Definition run_name (env : Env) (st : St) : string :=
  match output (self st) with
  | None => app_name env ++ "." ++ "ipa"
  | Some out =>
    if is_dir env out then path_join out (app_name env ++ "." ++ "ipa")
    else out
  end.

(** ** Finding the device and the application (lines 16-49) *)

(** An entry of [dev.enumerate_applications()]. *)
Record Application := {
  a_identifier : string;
  a_name : string;
  a_pid : Z;
}.

(** A frida device: its id, its type and the applications installed. *)
Record Device := {
  d_id : string;
  d_type : string;
  d_apps : list Application;
}.

(** What frida answers on the host: the USB device, the device behind an
    id such as "tcp@host", and the devices enumerated.  The calls are
    taken to return. *)
Record Host := {
  usb_device : Device;
  get_device : string -> Device;
  all_devices : list Device;
}.

(** What [find_app] does to the outside. *)
Inductive host_effect :=
| AddRemoteDevice (ip : string)
| Output (line : string).

(** The double quote of the message of line 43. *)
Definition dquote : string :=
  String (Ascii.ascii_of_nat 34) EmptyString.

(** [fatal(reason)]: prints the reason and exits with status -1. *)
Definition fatal {A} (reason : string) : list host_effect * (exn + A) :=
  ([Output reason], inl (SystemExit (-1))).

(** [dev.type not in ('tether', 'remote', 'usb')] *)
Definition type_allowed (t : string) : bool :=
  String.eqb t "tether" || String.eqb t "remote" || String.eqb t "usb".

(** The test of the generator of lines 39-41. *)
Definition app_matches (app_name_or_id : string) (app : Application)
  : bool :=
  String.eqb app_name_or_id (a_identifier app) ||
  String.eqb app_name_or_id (a_name app).

(** The lines of the loop of lines 45-46. *)
Definition installed_line (app : Application) : string :=
  a_name app ++ " (" ++ a_identifier app ++ ")".

(** Lines 22-33: the device. *)
Definition find_device (host : Host) (device_id device_ip : option string)
  : list host_effect * (exn + Device) :=
  match device_id with
  | None =>
    match device_ip with
    | None => ([], inr (usb_device host))
    | Some ip => ([AddRemoteDevice ip], inr (get_device host ("tcp@" ++ ip)))
    end
  | Some prefix =>
    match List.find (fun dev => String.prefix prefix (d_id dev))
            (all_devices host) with
    | Some dev => ([], inr dev)
    | None => fatal ("device id " ++ prefix ++ " not found")
    end
  end.

(** [find_app] (lines 21-49). *)
Definition find_app (host : Host) (app_name_or_id : string)
    (device_id device_ip : option string)
  : list host_effect * (exn + (Device * Application)) :=
  match find_device host device_id device_ip with
  | (out, inl e) => (out, inl e)
  | (out, inr dev) =>
    if negb (type_allowed (d_type dev)) then
      (out ++ [Output "unable to find device"], inl (SystemExit (-1)))%list
    else
      match List.find (app_matches app_name_or_id) (d_apps dev) with
      | Some app => (out, inr (dev, app))
      | None =>
        (out ++
         [Output ("app " ++ dquote ++ app_name_or_id ++ dquote ++
                  " not found");
          Output "installed app:"] ++
         map (fun app => Output (installed_line app)) (d_apps dev) ++
         [Output ""],
         inl (SystemExit (-1)))%list
      end
  end.

(** ** More concrete environments *)

(** A device on which the daemon cannot be reached. *)
Definition env_no_pkd : Env :=
  {| app_pid := 0; app_identifier := "com.example.app"; app_name := "App";
     frontmost := None; spawn_pid := fun _ => 100;
     pkd_running := false; pkd_started := false;
     agent_dist := "agent"; is_dir := fun _ => false;
     agent_plugins := ["ext.x"]; agent_root := "/app";
     agent_data := "/data";
     agent_launch := fun _ => 201;
     agent_groups := fun _ => ["group.a"];
     agent_path_for_group := fun g => "/groups/" ++ g;
     agent_decrypt := fun _ _ _ => [];
     hash_order := []; pop_choice := 0 |}.

(** A plugin that declares the empty string as its only group. *)
Definition env_empty_group : Env :=
  env_with ["ext.x"] (fun _ => [""]) [].

(** A host with one phone that has two applications. *)
Definition app_mail : Application :=
  {| a_identifier := "com.example.mail"; a_name := "Mail"; a_pid := 0 |}.

Definition app_maps : Application :=
  {| a_identifier := "com.example.maps"; a_name := "Maps"; a_pid := 42 |}.

Definition phone : Device :=
  {| d_id := "00008030-001"; d_type := "usb";
     d_apps := [app_mail; app_maps] |}.

Definition local_device : Device :=
  {| d_id := "local"; d_type := "local"; d_apps := [] |}.

Definition host_example : Host :=
  {| usb_device := phone; get_device := fun _ => phone;
     all_devices := [local_device; phone] |}.

(** * Proofs *)

(** ** Download manager *)

Lemma on_message_start key size data st :
  on_message (ev_start key size).1 data st = on_download_start key size st.
Proof. reflexivity. Qed.

Lemma on_message_data key bytes data st :
  on_message (ev_data key bytes).1 data st = on_download_data key data st.
Proof. reflexivity. Qed.

Lemma on_message_end key data st :
  on_message (ev_end key).1 data st = close_session key st.
Proof. reflexivity. Qed.

Lemma on_message_error key data st :
  on_message (ev_error key).1 data st = close_session key st.
Proof. reflexivity. Qed.

Lemma write_at_end (c data : list byte) :
  write_at (length c) data c = (c ++ data)%list.
Proof.
  unfold write_at. rewrite Nat.sub_diag. simpl. rewrite app_nil_r.
  rewrite take_ge by lia. rewrite drop_ge by lia. by rewrite app_nil_r.
Qed.

Lemma deliver_cons_ok m d rest st :
  (on_message m d st).1 = inr tt ->
  deliver ((m, d) :: rest) st =
  (inr tt :: (deliver rest (on_message m d st).2).1,
   (deliver rest (on_message m d st).2).2).
Proof.
  intros H. simpl. destruct (on_message m d st) as [r st1]. simpl in *.
  subst r. by destruct (deliver rest st1).
Qed.

Lemma deliver_app l1 l2 st :
  Forall (fun o => o = inr tt) (deliver l1 st).1 ->
  deliver (l1 ++ l2) st =
  ((deliver l1 st).1 ++ (deliver l2 (deliver l1 st).2).1,
   (deliver l2 (deliver l1 st).2).2)%list.
Proof.
  revert st. induction l1 as [|[m d] l1 IH]; intros st Hok; simpl.
  - by destruct (deliver l2 st).
  - simpl in Hok. destruct (on_message m d st) as [r st1].
    destruct r as [e|[]].
    + destruct e; destruct (deliver l1 st1); by inversion Hok.
    + destruct (deliver l1 st1) as [rs st2] eqn:E. simpl in *.
      inversion Hok as [|? ? _ Hrs]; subst.
      specialize (IH st1). rewrite E in IH. simpl in IH.
      rewrite (IH Hrs). by destruct (deliver l2 st2).
Qed.

Lemma effects_since_app st st' es :
  trace (world st') = (trace (world st) ++ es)%list ->
  effects_since st st' = es.
Proof. intros H. unfold effects_since. rewrite H. apply drop_app_length. Qed.

Lemma count_app p l1 l2 : count p (l1 ++ l2) = (count p l1 + count p l2)%nat.
Proof. unfold count. by rewrite filter_app, length_app. Qed.

Lemma count_writes fd fd' bs : count (is_close fd) (map (FileWrite fd') bs) = 0%nat.
Proof. unfold count. induction bs as [|b bs IH]; [done|]. simpl.
  rewrite filter_cons_False; [exact IH|]. simpl. done. Qed.

Lemma flushed_end path c data fs :
  fs !! path = Some c ->
  flushed path (length c) data fs !! path = Some (c ++ data)%list.
Proof.
  intros H. destruct data as [|b data]; simpl.
  - by rewrite app_nil_r.
  - rewrite H. simpl. rewrite lookup_insert_eq. by rewrite write_at_end.
Qed.

Lemma count_single fd e :
  count (is_close fd) [e] = if is_close fd e then 1%nat else 0%nat.
Proof.
  unfold count. destruct (is_close fd e) eqn:E.
  - by rewrite filter_cons_True.
  - rewrite filter_cons_False; [done|]. by rewrite E.
Qed.

Lemma count_other_close fd fd' :
  fd <> fd' -> count (is_close fd) [FileClose fd'] = 0%nat.
Proof.
  intros H. rewrite count_single. simpl.
  by destruct (Nat.eqb_spec fd fd').
Qed.

Lemma count_same_close fd : count (is_close fd) [FileClose fd] = 1%nat.
Proof. rewrite count_single. simpl. by rewrite Nat.eqb_refl. Qed.

Section Transfer.

Variables (key k : pyval).
Hypothesis Hk : hash_key key = inr k.

Lemma start_result size st :
  let st' := (on_download_start key size st).2 in
  (on_download_start key size st).1 = inr tt /\
  tasks (self st') = <[k := new_task key size st]> (tasks (self st)) /\
  ipa_name (self st') = ipa_name (self st).
Proof.
  unfold on_download_start, Task_init, file_open_wb, bind. simpl.
  rewrite Hk. simpl.
  destruct (tasks (self st) !! k) as [old|]; simpl; [|done].
  unfold Task_dropped, file_close, bind. simpl.
  match goal with
  | |- context [?l !! task_file old] => destruct (l !! task_file old) as [h|]
  end; simpl; [|done].
  by destruct (fh_closed h).
Qed.

Lemma start_fresh size st :
  tasks (self st) !! k = None ->
  let st' := (on_download_start key size st).2 in
  trace (world st') =
    (trace (world st) ++
     [FileOpen (ipa_name (self st)) (length (handles (world st)))])%list /\
  files (world st') = <[ipa_name (self st) := []]> (files (world st)) /\
  handles (world st') = (handles (world st) ++ [new_handle st])%list.
Proof.
  intros Hfree.
  unfold on_download_start, Task_init, file_open_wb, bind. simpl.
  rewrite Hk. simpl. rewrite Hfree. done.
Qed.

Lemma start_replaces size st old h :
  tasks (self st) !! k = Some old ->
  handles (world st) !! task_file old = Some h ->
  fh_closed h = false ->
  let st' := (on_download_start key size st).2 in
  trace (world st') =
    (trace (world st) ++
     [FileOpen (ipa_name (self st)) (length (handles (world st)));
      FileClose (task_file old)])%list /\
  files (world st') =
    flushed (fh_path h) (fh_pos h) (fh_pending h)
      (<[ipa_name (self st) := []]> (files (world st))) /\
  handles (world st') =
    <[task_file old := closed_handle h]>
      (handles (world st) ++ [new_handle st])%list.
Proof.
  intros Hold Hh Hc.
  assert (Hh' : (handles (world st) ++ [new_handle st])%list !! task_file old
                = Some h).
  { rewrite lookup_app_l; [done|]. by eapply lookup_lt_Some. }
  unfold on_download_start, Task_init, file_open_wb, bind. simpl.
  rewrite Hk. simpl. rewrite Hold. simpl.
  unfold Task_dropped, file_close, bind. simpl.
  unfold new_handle in Hh'. rewrite Hh'. simpl. rewrite Hc. simpl.
  rewrite Hh'. simpl. rewrite Hc. rewrite <- app_assoc. done.
Qed.

Lemma data_result bytes st t h c :
  tasks (self st) !! k = Some t ->
  handles (world st) !! task_file t = Some h ->
  fh_closed h = false ->
  files (world st) !! fh_path h = Some c ->
  fh_pos h = length c ->
  let st' := (on_download_data key (Some bytes) st).2 in
  (on_download_data key (Some bytes) st).1 = inr tt /\
  self st' = self st /\
  trace (world st') = (trace (world st) ++ [FileWrite (task_file t) bytes])%list /\
  exists c' b',
    files (world st') !! fh_path h = Some c' /\
    handles (world st') !! task_file t =
      Some {| fh_path := fh_path h; fh_pos := length c';
              fh_pending := b'; fh_closed := false |} /\
    (c' ++ b' = c ++ fh_pending h ++ bytes)%list.
Proof.
  intros Ht Hh Hc Hf Hp.
  pose proof (lookup_lt_Some _ _ _ Hh) as Hlt.
  unfold on_download_data, tasks_getitem, Task_write, file_write, bind. simpl.
  rewrite Hk. simpl. rewrite Ht. simpl. rewrite Hh, Hc. simpl.
  rewrite Hp.
  destruct (flush_policy (world st) (length (fh_pending h)) (length bytes));
    simpl; (split; [done|]); (split; [done|]); (split; [done|]).
  - exists c, (fh_pending h ++ bytes)%list.
    split; [done|]. split; [|done].
    rewrite list_lookup_insert_eq by done. by rewrite Nat.add_0_r.
  - exists (c ++ fh_pending h)%list, bytes.
    split; [by apply flushed_end|]. split; [|by rewrite <- app_assoc].
    rewrite list_lookup_insert_eq by done. by rewrite length_app.
  - exists (c ++ fh_pending h ++ bytes)%list, [].
    split; [by apply flushed_end|]. split; [|by rewrite app_nil_r].
    rewrite list_lookup_insert_eq by done.
    by rewrite (length_app c).
Qed.

Lemma close_result st t :
  tasks (self st) !! k = Some t ->
  let st' := (close_session key st).2 in
  (close_session key st).1 = inr tt /\
  tasks (self st') = delete k (tasks (self st)) /\
  ipa_name (self st') = ipa_name (self st) /\
  session (self st') = session (self st) /\
  trace (world st') = (trace (world st) ++ [FileClose (task_file t)])%list /\
  files (world st') =
    match handles (world st) !! task_file t with
    | Some h =>
      if fh_closed h then files (world st)
      else flushed (fh_path h) (fh_pos h) (fh_pending h) (files (world st))
    | None => files (world st)
    end /\
  handles (world st') =
    match handles (world st) !! task_file t with
    | Some h =>
      if fh_closed h then handles (world st)
      else <[task_file t := closed_handle h]> (handles (world st))
    | None => handles (world st)
    end.
Proof.
  intros Ht.
  unfold close_session, tasks_getitem, Task_finish, Task_close, file_close,
    bind. simpl.
  rewrite Hk. simpl. rewrite Ht. simpl. rewrite Ht. simpl.
  unfold Task_dropped, file_close, bind. simpl.
  destruct (handles (world st) !! task_file t) as [h|] eqn:Hh; simpl.
  - destruct (fh_closed h) eqn:Hc; simpl.
    + rewrite Hh. simpl. rewrite Hc. done.
    + rewrite list_lookup_insert_eq by (by eapply lookup_lt_Some). done.
  - rewrite Hh. done.
Qed.

Lemma deliver_data bs : forall st t h c,
  tasks (self st) !! k = Some t ->
  handles (world st) !! task_file t = Some h ->
  fh_closed h = false ->
  files (world st) !! fh_path h = Some c ->
  fh_pos h = length c ->
  let r := deliver (map (ev_data key) bs) st in
  r.1 = replicate (length bs) (inr tt) /\
  self r.2 = self st /\
  trace (world r.2) =
    (trace (world st) ++ map (FileWrite (task_file t)) bs)%list /\
  exists c' b',
    files (world r.2) !! fh_path h = Some c' /\
    handles (world r.2) !! task_file t =
      Some {| fh_path := fh_path h; fh_pos := length c';
              fh_pending := b'; fh_closed := false |} /\
    (c' ++ b' = c ++ fh_pending h ++ concat bs)%list.
Proof.
  induction bs as [|b bs IH]; intros st t h c Ht Hh Hc Hf Hp; simpl.
  - rewrite !app_nil_r. repeat split; try done.
    exists c, (fh_pending h). split; [done|]. split; [|done].
    rewrite Hh. destruct h; simpl in *. by subst.
  - pose proof (on_message_data key b (Some b) st) as E. simpl in E.
    rewrite E. clear E.
    destruct (data_result b st t h c Ht Hh Hc Hf Hp)
      as (R & Hs & Htr & c1 & b1 & Hfs & Hhs & Hcb).
    destruct (on_download_data key (Some b) st) as [r st1]. simpl in *.
    subst r.
    specialize (IH st1 t
      {| fh_path := fh_path h; fh_pos := length c1;
         fh_pending := b1; fh_closed := false |} c1).
    simpl in IH.
    destruct IH as (R' & Hs' & Htr' & c2 & b2 & Hfs' & Hhs' & Hcb');
      [by rewrite Hs|done..|].
    destruct (deliver (map (ev_data key) bs) st1) as [rs st2]. simpl in *.
    rewrite R', Hs', Hs, Htr', Htr, <- !app_assoc.
    repeat split; try done.
    exists c2, b2. split; [done|]. split; [done|].
    rewrite Hcb', app_assoc, Hcb, <- !app_assoc. done.
Qed.

Lemma transfer size bs closing st :
  (forall st, on_message closing.1 closing.2 st = close_session key st) ->
  tasks (self st) !! k = None ->
  let fd := length (handles (world st)) in
  let path := ipa_name (self st) in
  let r := deliver (ev_start key size :: map (ev_data key) bs ++ [closing]) st in
  r.1 = replicate (S (S (length bs))) (inr tt) /\
  files (world r.2) !! path = Some (concat bs) /\
  trace (world r.2) =
    (trace (world st) ++
     FileOpen path fd :: map (FileWrite fd) bs ++ [FileClose fd])%list /\
  handles (world r.2) !! fd =
    Some {| fh_path := path; fh_pos := length (concat bs);
            fh_pending := []; fh_closed := true |} /\
  tasks (self r.2) = delete k (tasks (self st)) /\
  ipa_name (self r.2) = ipa_name (self st).
Proof.
  intros Hlast Hfree fd path. destruct closing as [lm ld]. simpl in Hlast.
  destruct (start_result size st) as (R0 & T0 & I0).
  destruct (start_fresh size st Hfree) as (Tr0 & F0 & H0).
  unfold ev_start at 1.
  rewrite deliver_cons_ok by exact R0.
  change (on_message _ None st) with (on_download_start key size st).
  set (st0 := (on_download_start key size st).2) in *.
  set (t := new_task key size st) in *.
  destruct (deliver_data bs st0 t (new_handle st) [])
    as (R1 & S1 & Tr1 & c & b & F1 & H1 & Hcb).
  { rewrite T0. apply lookup_insert_eq. }
  { rewrite H0. simpl. apply list_lookup_middle. done. }
  { done. }
  { rewrite F0. apply lookup_insert_eq. }
  { done. }
  simpl in R1, S1, Tr1, F1, H1, Hcb.
  rewrite deliver_app by (rewrite R1; apply Forall_replicate; done).
  set (st1 := (deliver (map (ev_data key) bs) st0).2) in *.
  destruct (close_result st1 t) as (R2 & T2 & I2 & _ & Tr2 & F2 & H2).
  { rewrite S1, T0. apply lookup_insert_eq. }
  simpl in Tr2, F2, H2. rewrite H1 in F2, H2. simpl in F2, H2.
  rewrite (deliver_cons_ok lm ld [] st1) by (rewrite Hlast; exact R2).
  simpl. rewrite Hlast. rewrite R1.
  set (st2 := (close_session key st1).2) in *.
  repeat split.
  - f_equal. by rewrite <- replicate_S_end.
  - rewrite F2, <- Hcb. by apply flushed_end.
  - rewrite Tr2, Tr1, Tr0, <- !app_assoc. done.
  - rewrite H2. rewrite list_lookup_insert_eq by (by eapply lookup_lt_Some).
    unfold closed_handle. simpl. by rewrite <- Hcb, length_app.
  - rewrite T2, S1, T0. apply delete_insert_eq.
  - by rewrite I2, S1.
Qed.

Lemma start_then_close size closing st :
  (forall st, on_message closing.1 closing.2 st = close_session key st) ->
  tasks (self (deliver [ev_start key size; closing] st).2) =
  delete k (tasks (self st)).
Proof.
  intros Hlast. destruct closing as [lm ld]. simpl in Hlast.
  destruct (start_result size st) as (R0 & T0 & I0).
  unfold ev_start at 1.
  rewrite deliver_cons_ok by exact R0.
  change (on_message _ None st) with (on_download_start key size st).
  set (st0 := (on_download_start key size st).2) in *.
  destruct (close_result st0 (new_task key size st)) as (R2 & T2 & _).
  { rewrite T0. apply lookup_insert_eq. }
  rewrite (deliver_cons_ok lm ld [] st0) by (rewrite Hlast; exact R2).
  simpl. rewrite Hlast, T2, T0. apply delete_insert_eq.
Qed.

End Transfer.

Lemma step_refl st : step st st.
Proof.
  apply (step_quiet st st []); try done.
  - by rewrite app_nil_r.
  - intros fd H. by apply elem_of_nil in H.
Qed.

Lemma step_emit st e :
  (forall fd, e <> FileClose fd) -> step st (emit e st).2.
Proof.
  intros He. apply (step_quiet _ _ [e]); try done.
  intros fd H. apply list_elem_of_singleton in H. by eapply He.
Qed.

Lemma start_step session size st : step st (on_download_start session size st).2.
Proof.
  unfold on_download_start, Task_init, file_open_wb, bind. simpl.
  destruct (hash_key session) as [e|k] eqn:Hk; simpl.
  - unfold Task_dropped, bind. simpl.
    rewrite list_lookup_middle by done. simpl.
    unfold file_close. simpl. rewrite list_lookup_middle by done. simpl.
    apply step_rejected; simpl; try done.
    + by rewrite <- app_assoc.
    + rewrite insert_app_r_alt by done. by rewrite Nat.sub_diag.
  - destruct (tasks (self st) !! k) as [old|] eqn:Hold; simpl.
    2:{ by apply (step_open _ _ k session size). }
    unfold Task_dropped, bind. simpl.
    destruct ((handles (world st) ++ [new_handle st])%list !! task_file old)
      as [h|] eqn:Hh; unfold new_handle in Hh; rewrite Hh; simpl.
    2:{ by apply (step_open _ _ k session size). }
    destruct (fh_closed h) eqn:Hc; simpl.
    { by apply (step_open _ _ k session size). }
    unfold file_close. simpl. rewrite Hh. simpl. rewrite Hc.
    apply (step_replace _ _ k session size old h); simpl; try done.
    by rewrite <- app_assoc.
Qed.

Lemma data_step session data st : step st (on_download_data session data st).2.
Proof.
  unfold on_download_data, tasks_getitem, Task_write, file_write, bind. simpl.
  destruct (hash_key session) as [e|k] eqn:Hk; simpl; [apply step_refl|].
  destruct (tasks (self st) !! k) as [t|] eqn:Ht; simpl; [|apply step_refl].
  destruct data as [bytes|]; simpl; [|apply step_refl].
  destruct (handles (world st) !! task_file t) as [h|] eqn:Hh; simpl;
    [|apply step_refl].
  destruct (fh_closed h) eqn:Hc; simpl; [apply step_refl|].
  destruct (flush_policy (world st) (length (fh_pending h)) (length bytes));
    simpl;
    by eapply (step_write _ _ k t h
                 {| fh_path := fh_path h; fh_pos := _; fh_pending := _;
                    fh_closed := false |} bytes).
Qed.

Lemma close_step session st : step st (close_session session st).2.
Proof.
  destruct (hash_key session) as [e|k] eqn:Hk.
  { unfold close_session, tasks_getitem, bind. simpl. rewrite Hk. simpl.
    apply step_refl. }
  destruct (tasks (self st) !! k) as [t|] eqn:Ht.
  2:{ unfold close_session, tasks_getitem, bind. simpl. rewrite Hk. simpl.
      rewrite Ht. simpl. apply step_refl. }
  destruct (close_result session k Hk st t Ht)
    as (_ & T & I & S & Tr & _ & H).
  by eapply (step_close _ _ k t).
Qed.

Lemma on_message_step msg data st : step st (on_message msg data st).2.
Proof.
  unfold on_message.
  destruct (negb (is_str (msg_type msg) "send")).
  { by apply step_emit. }
  destruct (default (PDict ∅) (msg_payload msg)) as [d|v]; [|apply step_refl].
  destruct (is_str (d !! "subject") "download").
  { unfold bind. destruct (method_mapping (d !! "event")) as [e|m]; simpl;
      [apply step_refl|].
    unfold call_method.
    destruct (d !! "data"); [apply step_refl|].
    destruct (d !! "self"); [apply step_refl|].
    destruct m; unfold bind, kwarg;
      (destruct (d !! "session") as [s|]; simpl; [|apply step_refl]).
    - destruct (d !! "size") as [sz|]; simpl; [|apply step_refl].
      apply start_step.
    - apply data_step.
    - apply close_step.
    - apply close_step. }
  destruct (is_str (d !! "subject") "finish").
  { unfold bind, print. simpl.
    destruct (session (self st)) as [primary|]; simpl.
    - apply (step_quiet _ _ [Print [PText "bye"]; Detach primary]); simpl;
        try done.
      + by rewrite <- app_assoc.
      + intros fd H. apply elem_of_cons in H as [H|H]; [done|].
        apply list_elem_of_singleton in H. done.
    - by apply (step_emit st (Print [PText "bye"])). }
  unfold bind, print. simpl.
  apply (step_quiet _ _ [Print [PText "unknown message"]; Print [PMsg msg]]);
    simpl; try done.
  - by rewrite <- app_assoc.
  - intros fd H. apply elem_of_cons in H as [H|H]; [done|].
    apply list_elem_of_singleton in H. done.
Qed.

Lemma not_closed_app fd tr es :
  FileClose fd ∉ tr -> closes_nothing es -> FileClose fd ∉ (tr ++ es)%list.
Proof.
  intros H1 H2 H. apply elem_of_app in H as [H|H]; [done|]. by eapply H2.
Qed.

Lemma not_closed_snoc fd tr e :
  FileClose fd ∉ tr -> e <> FileClose fd -> FileClose fd ∉ (tr ++ [e])%list.
Proof.
  intros H1 H2 H. apply elem_of_app in H as [H|H]; [done|].
  apply list_elem_of_singleton in H. congruence.
Qed.

Lemma not_closed_open_close fd tr path fd1 fd2 :
  FileClose fd ∉ tr -> fd <> fd2 ->
  FileClose fd ∉ (tr ++ [FileOpen path fd1; FileClose fd2])%list.
Proof.
  intros H1 H2 H. apply elem_of_app in H as [H|H]; [done|].
  apply elem_of_cons in H as [H|H]; [done|].
  apply list_elem_of_singleton in H. congruence.
Qed.

Lemma step_wf st st' : step st st' -> wf st -> wf st'.
Proof.
  intros Hstep [Hcl Hpath Hopen Hun Hown].
  assert (Hlt : forall k t, tasks (self st) !! k = Some t ->
                  (task_file t < length (handles (world st)))%nat).
  { intros k t Ht. destruct (Hopen k t Ht) as (h & Hl & _).
    by eapply lookup_lt_Some. }
  assert (Hnew : FileClose (length (handles (world st))) ∉ trace (world st)).
  { intros H. apply Hcl in H. lia. }
  destruct Hstep as
    [es Hs Htr Hes Hf Hh
    |k0 key size Hse Hip Hts Htr Hh
    |k0 key size old h Hold Hhd Hc Hse Hip Hts Htr Hh
    |Hs Htr Hh
    |k t h h' bytes Ht Hhd Hs Htr Hc Hh
    |k t Ht Hse Hip Hts Htr Hh].
  - split; rewrite ?Hs, ?Htr, ?Hh; try done.
    + intros fd H. apply Hcl. apply elem_of_app in H as [H|H]; [done|].
      by apply Hes in H.
    + intros k t Ht. apply not_closed_app; [by eapply Hun|done].
  - split; rewrite ?Hts, ?Hip, ?Htr, ?Hh.
    + intros fd H. rewrite length_app. simpl.
      apply elem_of_app in H as [H|H]; [apply Hcl in H; lia|].
      apply list_elem_of_singleton in H. done.
    + intros k t Ht. apply lookup_insert_Some in Ht as [[_ <-]|[_ Ht]];
        [done|by eapply Hpath].
    + intros k t Ht. apply lookup_insert_Some in Ht as [[_ <-]|[_ Ht]].
      * simpl. eexists. split; [apply list_lookup_middle; done|done].
      * destruct (Hopen k t Ht) as (h & Hl & Hc).
        exists h. split; [|done]. rewrite lookup_app_l; [done|].
        by eapply lookup_lt_Some.
    + intros k t Ht. apply lookup_insert_Some in Ht as [[_ <-]|[_ Ht]].
      * simpl. by apply not_closed_snoc.
      * apply not_closed_snoc; [by eapply Hun|done].
    + intros k k' t t' Ht Ht' Hfd.
      apply lookup_insert_Some in Ht as [[<- <-]|[Hne Ht]];
        apply lookup_insert_Some in Ht' as [[<- <-]|[Hne' Ht']];
        simpl in *; try done.
      * apply Hlt in Ht'. lia.
      * apply Hlt in Ht. lia.
      * by eapply Hown.
  - pose proof (Hlt k0 old Hold) as Hold_lt.
    assert (Hother : forall k t, k0 <> k -> tasks (self st) !! k = Some t ->
                       task_file t <> task_file old).
    { intros k t Hne Ht E. apply Hne. symmetry. by eapply Hown. }
    split; rewrite ?Hts, ?Hip, ?Htr, ?Hh.
    + intros fd H. rewrite length_insert, length_app. simpl.
      apply elem_of_app in H as [H|H]; [apply Hcl in H; lia|].
      apply elem_of_cons in H as [H|H]; [done|].
      apply list_elem_of_singleton in H. injection H as ->. lia.
    + intros k t Ht. apply lookup_insert_Some in Ht as [[_ <-]|[_ Ht]];
        [done|by eapply Hpath].
    + intros k t Ht. apply lookup_insert_Some in Ht as [[_ <-]|[Hne Ht]].
      * simpl. exists (new_handle st). split; [|done].
        rewrite list_lookup_insert_ne by lia.
        by apply list_lookup_middle.
      * destruct (Hopen k t Ht) as (h1 & Hl & Hc1).
        exists h1. split; [|done].
        rewrite list_lookup_insert_ne by (apply not_eq_sym; by eapply Hother).
        rewrite lookup_app_l; [done|]. by eapply lookup_lt_Some.
    + intros k t Ht. apply lookup_insert_Some in Ht as [[_ <-]|[Hne Ht]].
      * simpl. apply not_closed_open_close; [done|lia].
      * apply not_closed_open_close; [by eapply Hun|by eapply Hother].
    + intros k k' t t' Ht Ht' Hfd.
      apply lookup_insert_Some in Ht as [[<- <-]|[Hne Ht]];
        apply lookup_insert_Some in Ht' as [[<- <-]|[Hne' Ht']];
        simpl in *; try done.
      * apply Hlt in Ht'. lia.
      * apply Hlt in Ht. lia.
      * by eapply Hown.
  - split; rewrite ?Hs, ?Htr, ?Hh; try done.
    + intros fd H. rewrite length_app. simpl.
      apply elem_of_app in H as [H|H]; [apply Hcl in H; lia|].
      apply elem_of_cons in H as [H|H]; [done|].
      apply list_elem_of_singleton in H. injection H as ->. lia.
    + intros k t Ht. destruct (Hopen k t Ht) as (h & Hl & Hc).
      exists h. split; [|done]. rewrite lookup_app_l; [done|].
      by eapply lookup_lt_Some.
    + intros k t Ht. apply not_closed_open_close; [by eapply Hun|].
      apply Hlt in Ht. lia.
  - split; rewrite ?Hs, ?Htr, ?Hh; try done.
    + intros fd H. rewrite length_insert.
      apply elem_of_app in H as [H|H]; [by apply Hcl|].
      apply list_elem_of_singleton in H. done.
    + intros k' t' Ht'. destruct (Hopen k' t' Ht') as (h1 & Hl & Hc1).
      destruct (decide (task_file t = task_file t')) as [E|NE].
      * exists h'. split; [|done]. rewrite <- E.
        apply list_lookup_insert_eq. by eapply lookup_lt_Some.
      * exists h1. split; [|done]. by rewrite list_lookup_insert_ne.
    + intros k' t' Ht'. apply not_closed_snoc; [by eapply Hun|done].
  - assert (Hlen : length (handles (world st')) = length (handles (world st))).
    { rewrite Hh. destruct (handles (world st) !! task_file t) as [h|];
        [|done]. destruct (fh_closed h); [done|by rewrite length_insert]. }
    split; rewrite ?Hts, ?Hip, ?Htr.
    + intros fd H. rewrite Hlen.
      apply elem_of_app in H as [H|H]; [by apply Hcl|].
      apply list_elem_of_singleton in H. injection H as ->.
      by eapply Hlt.
    + intros k' t' Ht'. apply lookup_delete_Some in Ht' as [_ Ht'].
      by eapply Hpath.
    + intros k' t' Ht'. apply lookup_delete_Some in Ht' as [Hne Ht'].
      destruct (Hopen k' t' Ht') as (h' & Hl & Hc).
      exists h'. split; [|done]. rewrite Hh.
      destruct (handles (world st) !! task_file t) as [h|]; [|done].
      destruct (fh_closed h); [done|].
      rewrite list_lookup_insert_ne; [done|].
      intros E. apply Hne. by eapply Hown.
    + intros k' t' Ht'. apply lookup_delete_Some in Ht' as [Hne Ht'].
      apply not_closed_snoc; [by eapply Hun|].
      intros E. injection E as E. apply Hne. by eapply Hown.
    + intros k1 k2 t1 t2 H1 H2 E.
      apply lookup_delete_Some in H1 as [_ H1].
      apply lookup_delete_Some in H2 as [_ H2]. by eapply Hown.
Qed.

Lemma count_closes_nothing fd es :
  closes_nothing es -> count (is_close fd) es = 0%nat.
Proof.
  intros H. unfold count. induction es as [|e es IH]; [done|].
  rewrite filter_cons_False.
  - apply IH. intros fd' Hin. apply (H fd'). by right.
  - destruct e; simpl; try done. intros E. apply Nat.eqb_eq in E as <-.
    apply (H fd). by left.
Qed.

(** A file object that no task holds is left alone by every delivery. *)
Lemma step_retired fd h0 n st st' :
  step st st' -> retired fd h0 n st -> retired fd h0 n st'.
Proof.
  intros Hstep [Hl0 Hn Hheld].
  pose proof (lookup_lt_Some _ _ _ Hl0) as Hlt0.
  destruct Hstep as
    [es Hs Htr Hes Hf Hh
    |k0 key size Hse Hip Hts Htr Hh
    |k0 key size old h Hold Hhd Hc Hse Hip Hts Htr Hh
    |Hs Htr Hh
    |k t h h' bytes Ht Hhd Hs Htr Hc Hh
    |k t Ht Hse Hip Hts Htr Hh].
  - split; rewrite ?Hs, ?Htr, ?Hh; try done.
    rewrite count_app, (count_closes_nothing fd es Hes). lia.
  - split; rewrite ?Htr, ?Hh.
    + by rewrite lookup_app_l.
    + rewrite count_app, count_single. simpl. lia.
    + intros k t Ht. rewrite Hts in Ht.
      apply lookup_insert_Some in Ht as [[_ <-]|[_ Ht]];
        [simpl; lia|by eapply Hheld].
  - pose proof (Hheld k0 old Hold) as Hne.
    split; rewrite ?Htr, ?Hh.
    + rewrite list_lookup_insert_ne by done. by rewrite lookup_app_l.
    + change [FileOpen (ipa_name (self st)) (length (handles (world st)));
              FileClose (task_file old)]
        with ([FileOpen (ipa_name (self st)) (length (handles (world st)))]
              ++ [FileClose (task_file old)])%list.
      rewrite !count_app, count_single, count_other_close by done.
      simpl. lia.
    + intros k t Ht. rewrite Hts in Ht.
      apply lookup_insert_Some in Ht as [[_ <-]|[_ Ht]];
        [simpl; lia|by eapply Hheld].
  - split; rewrite ?Hs, ?Htr, ?Hh; try done.
    + by rewrite lookup_app_l.
    + change [FileOpen (ipa_name (self st)) (length (handles (world st)));
              FileClose (length (handles (world st)))]
        with ([FileOpen (ipa_name (self st)) (length (handles (world st)))]
              ++ [FileClose (length (handles (world st)))])%list.
      rewrite !count_app, count_single, count_other_close by lia.
      simpl. lia.
  - pose proof (Hheld k t Ht) as Hne.
    split; rewrite ?Hs, ?Htr, ?Hh; try done.
    + by rewrite list_lookup_insert_ne.
    + rewrite count_app, count_single. simpl. lia.
  - pose proof (Hheld k t Ht) as Hne.
    split; rewrite ?Hts, ?Htr, ?Hh.
    + destruct (handles (world st) !! task_file t) as [h|]; [|done].
      destruct (fh_closed h); [done|]. by rewrite list_lookup_insert_ne.
    + rewrite count_app, count_other_close by done. lia.
    + intros k' t' Ht'. apply lookup_delete_Some in Ht' as [_ Ht'].
      by eapply Hheld.
Qed.

Lemma step_session st st' :
  step st st' -> session (self st') = session (self st).
Proof. intros [es -> | | | -> | k t h h' b _ _ -> | ]; done. Qed.

Lemma step_ipa_name st st' :
  step st st' -> ipa_name (self st') = ipa_name (self st).
Proof. intros [es -> | | | -> | k t h h' b _ _ -> | ]; done. Qed.

(** Any property that one delivery keeps is kept by a whole sequence. *)
Lemma deliver_invariant (P : St -> Prop) :
  (forall st st', step st st' -> P st -> P st') ->
  forall msgs st, P st -> P (deliver msgs st).2.
Proof.
  intros HP msgs. induction msgs as [|[m d] msgs IH]; intros st H; [done|].
  simpl. pose proof (on_message_step m d st) as Hs.
  destruct (on_message m d st) as [r st1]. simpl in Hs.
  pose proof (HP _ _ Hs H) as H1. specialize (IH st1 H1).
  destruct r as [e|u]; [destruct e|]; try done;
    by destruct (deliver msgs st1).
Qed.

(** ** Properties of the download manager and of the router *)

(** C3: for every event sequence start(key,size), data(key,b1) ...
    data(key,bn), end(key) on a stream key that has no task in flight
    when the sequence begins, every delivery returns, the destination
    file ends up holding exactly b1 ++ ... ++ bn in arrival order
    whatever the declared size (which start records in the task) and
    however the writes are buffered, and the file object opened by start
    is closed exactly once. *)
Theorem C3_start_data_end (st : St) (key k size : pyval)
    (bs : list (list byte)) :
  hash_key key = inr k ->
  tasks (self st) !! k = None ->
  let fd := length (handles (world st)) in
  let path := ipa_name (self st) in
  let r := deliver (ev_start key size :: map (ev_data key) bs ++ [ev_end key])
             st in
  Forall (fun o => o = inr tt) r.1 /\
  tasks (self (deliver [ev_start key size] st).2) !! k =
    Some {| task_session := key; task_path := path; task_size := size;
            task_file := fd |} /\
  files (world r.2) !! path = Some (concat bs) /\
  effects_since st r.2 =
    FileOpen path fd :: map (FileWrite fd) bs ++ [FileClose fd] /\
  count (is_close fd) (effects_since st r.2) = 1%nat /\
  handles (world r.2) !! fd =
    Some {| fh_path := path; fh_pos := length (concat bs);
            fh_pending := []; fh_closed := true |} /\
  tasks (self r.2) = delete k (tasks (self st)).
Proof.
  intros Hk Hfree fd path r.
  destruct (transfer key k Hk size bs (ev_end key) st) as
    (R & F & Tr & H & T & _); [intros; apply on_message_end|done|].
  fold fd path r in R, F, Tr, H, T.
  apply effects_since_app in Tr.
  repeat split; try done.
  - rewrite R. by apply Forall_replicate.
  - destruct (start_result key k Hk size st) as (R0 & T0 & _).
    unfold ev_start. rewrite (deliver_cons_ok _ _ [] st) by exact R0. simpl.
    change (on_message _ None st) with (on_download_start key size st).
    rewrite T0. apply lookup_insert_eq.
  - rewrite Tr. change (FileOpen path fd :: ?l) with ([FileOpen path fd] ++ l)%list.
    rewrite !count_app, count_writes. unfold count. simpl.
    rewrite filter_cons_True by (simpl; apply Nat.eqb_refl). done.
Qed.

Lemma C3_witness :
  hash_key key1 = inr key1 /\
  tasks (self st_ipa) !! key1 = None /\
  files (world (deliver (ev_start key1 (VInt 1024) ::
                         map (ev_data key1) [[x01; x02]; [x03]] ++
                         [ev_end key1]) st_ipa).2) !! "App.ipa" =
  Some [x01; x02; x03].
Proof.
  split; [reflexivity|]. split; [reflexivity|].
  apply (C3_start_data_end st_ipa key1 key1 (VInt 1024) [[x01; x02]; [x03]]).
  - reflexivity.
  - reflexivity.
Defined.

(** C4: for every event sequence start(key,size), data(key,b1) ...
    data(key,bn), error(key) on a stream key that has no task in flight
    when the sequence begins, every delivery returns (no error goes up),
    the file object opened by start is closed exactly once however many
    bytes were written, the task leaves the in-flight map, and the file
    keeps the bytes written so far with nothing printed. *)
Theorem C4_start_data_error (st : St) (key k size : pyval)
    (bs : list (list byte)) :
  hash_key key = inr k ->
  tasks (self st) !! k = None ->
  let fd := length (handles (world st)) in
  let path := ipa_name (self st) in
  let r := deliver (ev_start key size :: map (ev_data key) bs ++
                    [ev_error key]) st in
  Forall (fun o => o = inr tt) r.1 /\
  length r.1 = S (S (length bs)) /\
  count (is_close fd) (effects_since st r.2) = 1%nat /\
  effects_since st r.2 =
    FileOpen path fd :: map (FileWrite fd) bs ++ [FileClose fd] /\
  handles (world r.2) !! fd =
    Some {| fh_path := path; fh_pos := length (concat bs);
            fh_pending := []; fh_closed := true |} /\
  tasks (self r.2) !! k = None /\
  tasks (self r.2) = delete k (tasks (self st)) /\
  files (world r.2) !! path = Some (concat bs) /\
  count is_print (effects_since st r.2) = 0%nat.
Proof.
  intros Hk Hfree fd path r.
  destruct (transfer key k Hk size bs (ev_error key) st) as
    (R & F & Tr & H & T & _); [intros; apply on_message_error|done|].
  fold fd path r in R, F, Tr, H, T.
  apply effects_since_app in Tr.
  assert (Hw : forall p, (forall fd' b, p (FileWrite fd' b) = false) ->
             count p (map (FileWrite fd) bs) = 0%nat).
  { intros p Hp. unfold count. clear -Hp. induction bs as [|b bs' IH]; [done|].
    simpl. rewrite filter_cons_False; [exact IH|]. by rewrite Hp. }
  repeat split; try done.
  - rewrite R. by apply Forall_replicate.
  - by rewrite R, length_replicate.
  - rewrite Tr.
    change (FileOpen path fd :: ?l) with ([FileOpen path fd] ++ l)%list.
    rewrite !count_app, Hw by done. unfold count. simpl.
    rewrite filter_cons_True by (simpl; apply Nat.eqb_refl). done.
  - rewrite T. apply lookup_delete_eq.
  - rewrite Tr.
    change (FileOpen path fd :: ?l) with ([FileOpen path fd] ++ l)%list.
    rewrite !count_app, Hw by done. done.
Qed.

Lemma C4_witness :
  hash_key key1 = inr key1 /\
  tasks (self st_ipa) !! key1 = None /\
  files (world (deliver (ev_start key1 (VInt 1024) ::
                         map (ev_data key1) [[x01; x02]] ++
                         [ev_error key1]) st_ipa).2) !! "App.ipa" =
  Some [x01; x02].
Proof.
  split; [reflexivity|]. split; [reflexivity|].
  apply (C4_start_data_error st_ipa key1 key1 (VInt 1024) [[x01; x02]]).
  - reflexivity.
  - reflexivity.
Defined.

(** C5: for a message of type "send" with subject "download", the
    router calls the method that the closed table gives for the event
    ("start", "data", "end", "error"); for every other event value,
    a missing one included, the delivery raises and does nothing else:
    there is no default branch. *)
Theorem C5_download_dispatch (st : St) (msg : Message)
    (data : option (list byte)) (d : gmap string pyval) :
  msg_type msg = Some (VStr "send") ->
  msg_payload msg = Some (PDict d) ->
  d !! "subject" = Some (VStr "download") ->
  (d !! "event" = Some (VStr "start") ->
   on_message msg data st = call_method m_on_download_start data d st) /\
  (d !! "event" = Some (VStr "data") ->
   on_message msg data st = call_method m_on_download_data data d st) /\
  (d !! "event" = Some (VStr "end") ->
   on_message msg data st = call_method m_on_download_finish data d st) /\
  (d !! "event" = Some (VStr "error") ->
   on_message msg data st = call_method m_on_download_error data d st) /\
  (d !! "event" ∉ [Some (VStr "start"); Some (VStr "data");
                   Some (VStr "end"); Some (VStr "error")] ->
   exists e, on_message msg data st = (inl e, st)).
Proof.
  intros Hty Hpl Hsub. unfold on_message. rewrite Hty, Hpl. simpl.
  rewrite Hsub. simpl.
  repeat split.
  - by intros ->.
  - by intros ->.
  - by intros ->.
  - by intros ->.
  - intros Hnot. unfold bind, method_mapping.
    destruct (d !! "event") as [[| | |ev|]|]; simpl; eauto.
    destruct (String.eqb_spec ev "start") as [->|_];
      [exfalso; apply Hnot; set_solver|].
    destruct (String.eqb_spec ev "data") as [->|_];
      [exfalso; apply Hnot; set_solver|].
    destruct (String.eqb_spec ev "end") as [->|_];
      [exfalso; apply Hnot; set_solver|].
    destruct (String.eqb_spec ev "error") as [->|_];
      [exfalso; apply Hnot; set_solver|].
    simpl. eauto.
Qed.

Lemma C5_witness :
  on_message (msg_send (download_payload "pause" key1)) None st_inflight =
  (inl KeyError, st_inflight).
Proof.
  destruct (C5_download_dispatch st_inflight
              (msg_send (download_payload "pause" key1)) None
              (download_payload "pause" key1)
              eq_refl eq_refl eq_refl) as (_ & _ & _ & _ & H).
  destruct H as [e He].
  - intros Hin. repeat (apply elem_of_cons in Hin as [Hin|Hin];
      [discriminate Hin|]). by apply elem_of_nil in Hin.
  - rewrite He. f_equal.
    assert (E : (on_message (msg_send (download_payload "pause" key1)) None
                   st_inflight).1 = inl KeyError) by reflexivity.
    rewrite He in E. exact E.
Defined.

Lemma count_not_elem fd tr :
  FileClose fd ∉ tr -> count (is_close fd) tr = 0%nat.
Proof.
  intros H. unfold count. induction tr as [|e tr IH]; [done|].
  rewrite filter_cons_False.
  - apply IH. intros Hin. apply H. by right.
  - destruct e; simpl; try done. intros E. apply Nat.eqb_eq in E as <-.
    apply H. by left.
Qed.

Lemma getitem_missing key k st :
  hash_key key = inr k -> tasks (self st) !! k = None ->
  tasks_getitem key st = (inl KeyError, st).
Proof.
  intros Hk Ht. unfold tasks_getitem, bind. simpl. rewrite Hk. simpl.
  by rewrite Ht.
Qed.

(** C9: a "data", "end" or "error" event whose stream key has no active
    task makes the lookup [self.tasks[session]] raise [KeyError], which
    the router lets through, and leaves the state as it was; with an
    active task under the key no [KeyError] is raised.  After a start
    followed by "end" or "error" the key has no active task any more. *)
Theorem C9_no_active_task (st : St) (key k : pyval)
    (data : option (list byte)) (bytes : list byte) :
  hash_key key = inr k ->
  ((on_message (ev_data key bytes).1 data st).1 = inl KeyError <->
   tasks (self st) !! k = None) /\
  ((on_message (ev_end key).1 data st).1 = inl KeyError <->
   tasks (self st) !! k = None) /\
  ((on_message (ev_error key).1 data st).1 = inl KeyError <->
   tasks (self st) !! k = None) /\
  (tasks (self st) !! k = None ->
   on_message (ev_data key bytes).1 data st = (inl KeyError, st) /\
   on_message (ev_end key).1 data st = (inl KeyError, st) /\
   on_message (ev_error key).1 data st = (inl KeyError, st)) /\
  (forall size,
     tasks (self (deliver [ev_start key size; ev_end key] st).2) !! k = None /\
     tasks (self (deliver [ev_start key size; ev_error key] st).2) !! k
       = None).
Proof.
  intros Hk.
  rewrite on_message_data, on_message_end, on_message_error.
  assert (Hclose : (close_session key st).1 = inl KeyError <->
                   tasks (self st) !! k = None).
  { split.
    - intros H. destruct (tasks (self st) !! k) as [t|] eqn:Ht; [|done].
      destruct (close_result key k Hk st t Ht) as (R & _). congruence.
    - intros Ht. unfold close_session, bind.
      by rewrite (getitem_missing key k st Hk Ht). }
  repeat split; try apply Hclose.
  - intros H. destruct (tasks (self st) !! k) as [t|] eqn:Ht; [|done].
    revert H. unfold on_download_data, tasks_getitem, Task_write, file_write,
      bind. simpl. rewrite Hk. simpl. rewrite Ht. simpl.
    destruct data as [b|]; simpl; [|done].
    destruct (handles (world st) !! task_file t) as [h|]; simpl; [|done].
    destruct (fh_closed h); [done|].
    by destruct (flush_policy (world st) (length (fh_pending h)) (length b)).
  - intros Ht. unfold on_download_data, bind.
    by rewrite (getitem_missing key k st Hk Ht).
  - unfold on_download_data, bind.
    by rewrite (getitem_missing key k st Hk H).
  - unfold close_session, bind. by rewrite (getitem_missing key k st Hk H).
  - unfold close_session, bind. by rewrite (getitem_missing key k st Hk H).
  - rewrite (start_then_close key k Hk size (ev_end key) st)
      by (intros; apply on_message_end).
    apply lookup_delete_eq.
  - rewrite (start_then_close key k Hk size (ev_error key) st)
      by (intros; apply on_message_error).
    apply lookup_delete_eq.
Qed.

Lemma C9_witness :
  hash_key key1 = inr key1 /\
  on_message (ev_end key1).1 None st_ipa = (inl KeyError, st_ipa).
Proof.
  split; [reflexivity|].
  apply (C9_no_active_task st_ipa key1 key1 None [] eq_refl).
  reflexivity.
Defined.

Lemma wf_st_ipa : wf st_ipa.
Proof.
  split; simpl.
  - intros fd H. by apply elem_of_nil in H.
  - intros k t H. by rewrite lookup_empty in H.
  - intros k t H. by rewrite lookup_empty in H.
  - intros k t H. by rewrite lookup_empty in H.
  - intros k k' t t' H. by rewrite lookup_empty in H.
Qed.

Lemma wf_st_inflight : wf st_inflight.
Proof. apply (deliver_invariant wf step_wf), wf_st_ipa. Qed.

Lemma count_trace_since (p : effect -> bool) st st' es :
  trace (world st') = (trace (world st) ++ es)%list ->
  count p (trace (world st')) =
  (count p (trace (world st)) + count p (effects_since st st'))%nat.
Proof.
  intros H. rewrite (effects_since_app _ _ _ H), H. apply count_app.
Qed.

(** C10, as the code has it under CPython: a second "start" for a
    stream key that already has an active task puts a new task under the
    key, which opens the same path [self.ipa_name] again and so
    truncates the file.  The task replaced is freed at once and its file
    object is closed during that very delivery (by its finalizer,
    [Task_dropped]; [on_download_start] calls no [finish]): the bytes it
    was holding back are written into the file just truncated, at the
    offset the file object had reached, and the file object is closed
    exactly once in the whole run, whatever is delivered later.  Every
    task of the run has [self.ipa_name] as its path. *)
Theorem C10_second_start (st : St) (key k size : pyval) (old : Task)
    (h : FileHandle) :
  wf st ->
  hash_key key = inr k ->
  tasks (self st) !! k = Some old ->
  handles (world st) !! task_file old = Some h ->
  fh_path h = task_path old ->
  let fd := length (handles (world st)) in
  let st' := (on_message (ev_start key size).1 None st).2 in
  (on_message (ev_start key size).1 None st).1 = inr tt /\
  tasks (self st') =
    <[k := {| task_session := key; task_path := ipa_name (self st);
              task_size := size; task_file := fd |}]> (tasks (self st)) /\
  task_path old = ipa_name (self st) /\
  task_file old <> fd /\
  effects_since st st' =
    [FileOpen (ipa_name (self st)) fd; FileClose (task_file old)] /\
  files (world st') !! ipa_name (self st) =
    Some (match fh_pending h with
          | [] => []
          | _ => write_at (fh_pos h) (fh_pending h) []
          end) /\
  handles (world st') !! fd =
    Some {| fh_path := ipa_name (self st); fh_pos := 0%nat;
            fh_pending := []; fh_closed := false |} /\
  handles (world st') !! task_file old =
    Some {| fh_path := ipa_name (self st);
            fh_pos := (fh_pos h + length (fh_pending h))%nat;
            fh_pending := []; fh_closed := true |} /\
  (forall msgs,
     let st'' := (deliver msgs st').2 in
     count (is_close (task_file old)) (trace (world st'')) = 1%nat /\
     (exists h', handles (world st'') !! task_file old = Some h' /\
                 fh_closed h' = true) /\
     (forall k' t, tasks (self st'') !! k' = Some t ->
                   task_path t = ipa_name (self st))).
Proof.
  intros Hwf Hk Hold Hh Hp fd st'.
  subst st'. rewrite on_message_start.
  destruct (wf_open st Hwf k old Hold) as (h1 & Hl & Hc).
  assert (h1 = h) as -> by congruence.
  pose proof (wf_path st Hwf k old Hold) as Hpath.
  destruct (start_result key k Hk size st) as (R & T & I).
  destruct (start_replaces key k Hk size st old h Hold Hh Hc)
    as (Tr & F & H).
  fold fd in T, Tr, H.
  set (st' := ((on_download_start key size st).2)) in *.
  assert (Hlt : (task_file old < fd)%nat) by (by eapply lookup_lt_Some).
  assert (Hold' : handles (world st') !! task_file old
                  = Some (closed_handle h)).
  { rewrite H. apply list_lookup_insert_eq. rewrite length_app. simpl.
    fold fd. lia. }
  assert (Hret : retired (task_file old) (closed_handle h) 1 st').
  { split.
    - exact Hold'.
    - rewrite (count_trace_since _ st st' _ Tr).
      rewrite (count_not_elem _ _ (wf_unclosed st Hwf k old Hold)).
      rewrite (effects_since_app _ _ _ Tr).
      change [FileOpen (ipa_name (self st)) fd; FileClose (task_file old)]
        with ([FileOpen (ipa_name (self st)) fd]
              ++ [FileClose (task_file old)])%list.
      by rewrite count_app, count_single, count_same_close.
    - intros k' t Ht. rewrite T in Ht.
      apply lookup_insert_Some in Ht as [[_ <-]|[Hne Ht]]; simpl;
        [fold fd; lia|].
      intros E. apply Hne. by eapply (wf_owner st Hwf). }
  split; [done|]. split; [done|]. split; [done|]. split; [lia|].
  split; [by apply effects_since_app|].
  split.
  { rewrite F, Hp, Hpath. unfold flushed.
    destruct (fh_pending h) as [|b bs] eqn:Hb.
    - apply lookup_insert_eq.
    - by rewrite !lookup_insert_eq. }
  split.
  { rewrite H. rewrite list_lookup_insert_ne by lia.
    by apply list_lookup_middle. }
  split.
  { rewrite Hold'. unfold closed_handle. by rewrite Hp, Hpath. }
  intros msgs st''.
  pose proof (deliver_invariant _
    (fun s s' Hs P => step_retired (task_file old) (closed_handle h) 1
                        s s' Hs P) msgs st' Hret) as [H1 H2 _].
  split; [exact H2|].
  split; [by exists (closed_handle h)|].
  intros k' t Ht.
  assert (Hwf' : wf st').
  { eapply step_wf; [|exact Hwf]. apply start_step. }
  pose proof (deliver_invariant
    (fun s => wf s /\ ipa_name (self s) = ipa_name (self st))
    (fun s s' Hs P => conj (step_wf s s' Hs (proj1 P))
       (eq_trans (step_ipa_name s s' Hs) (proj2 P)))
    msgs st' (conj Hwf' I)) as [Hw Hi].
  rewrite <- Hi. by eapply wf_path.
Qed.

Lemma C10_witness :
  wf st_inflight /\
  tasks (self st_inflight) !! key1 =
    Some {| task_session := key1; task_path := "App.ipa";
            task_size := VInt 1024; task_file := 0 |} /\
  handles (world st_inflight) !! 0%nat =
    Some {| fh_path := "App.ipa"; fh_pos := 0; fh_pending := [x01; x02];
            fh_closed := false |} /\
  files (world (on_message (ev_start key1 (VInt 7)).1 None st_inflight).2)
    !! "App.ipa" = Some [x01; x02].
Proof.
  split; [exact wf_st_inflight|].
  split; [reflexivity|]. split; [reflexivity|].
  apply (C10_second_start st_inflight key1 key1 (VInt 7)
           {| task_session := key1; task_path := "App.ipa";
              task_size := VInt 1024; task_file := 0 |}
           {| fh_path := "App.ipa"; fh_pos := 0; fh_pending := [x01; x02];
              fh_closed := false |}
           wf_st_inflight eq_refl eq_refl eq_refl eq_refl).
Defined.

(** C10 as the specification has it fails: the file object of the task
    replaced is closed.  While a first download on "stream-1" is in
    flight with two bytes written, a second "start" on that key closes
    file object 0, the one of the first task, and the file then holds
    those two bytes. *)
Lemma C10_counterexample :
  let st' := (on_message (ev_start key1 (VInt 7)).1 None st_inflight).2 in
  tasks (self st_inflight) !! key1 =
    Some {| task_session := key1; task_path := "App.ipa";
            task_size := VInt 1024; task_file := 0 |} /\
  effects_since st_inflight st' = [FileOpen "App.ipa" 1; FileClose 0] /\
  count (is_close 0) (trace (world st')) = 1%nat /\
  handles (world st') !! 0%nat =
    Some {| fh_path := "App.ipa"; fh_pos := 2; fh_pending := [];
            fh_closed := true |} /\
  files (world st') !! "App.ipa" = Some [x01; x02].
Proof. repeat split; reflexivity. Qed.

(** ** Orchestration *)

Lemma log_nil st : log [] 0 st = st.
Proof.
  destruct st as [s [tr n fs hs fp]]. unfold log. simpl.
  by rewrite app_nil_r, Nat.add_0_r.
Qed.

Lemma dump_attach_spec env st :
  dump_attach env st =
  (inr {| sess_id := next_session (world st);
          sess_target := ByPid (primary_pid env) |},
   log (console_info st "attaching to target" ++ primary_calls env) 1 st).
Proof.
  unfold dump_attach, on_console, console_info, primary_calls, primary_pid,
    displaced, running, device_attach, new_session, log, bind.
  destruct st as [s [tr n fs hs fp]]. simpl.
  change ("[" +:+ "info" +:+ "]") with "[info]".
  destruct (verbose s); simpl;
    destruct (pid_truthy (app_pid env)); simpl;
    destruct (frontmost env) as [f|]; simpl;
    try destruct (negb (f =? app_pid env)%Z); simpl;
    rewrite <- ?app_assoc, ?Nat.add_1_r, ?app_nil_r; reflexivity.
Qed.

Section Extends.

Variable Q : effect -> Prop.

Lemma extends_refl st : extends Q st st.
Proof.
  repeat split. exists []. by rewrite app_nil_r.
Qed.

Lemma extends_trans st1 st2 st3 :
  extends Q st1 st2 -> extends Q st2 st3 -> extends Q st1 st3.
Proof.
  intros (S1 & T1 & es1 & E1 & Q1) (S2 & T2 & es2 & E2 & Q2).
  split; [congruence|]. split; [congruence|].
  exists (es1 ++ es2)%list. split.
  - by rewrite E2, E1, <- app_assoc.
  - by apply Forall_app.
Qed.

Lemma extends_log es n st : Forall Q es -> extends Q st (log es n st).
Proof. intros H. repeat split. by exists es. Qed.

Lemma ext_ret {A} (a : A) : ext Q (ret a).
Proof. intros st. apply extends_refl. Qed.

Lemma ext_raise {A} e : ext Q (@raise A e).
Proof. intros st. apply extends_refl. Qed.

Lemma ext_bind {A B} (m : M A) (k : A -> M B) :
  ext Q m -> (forall a, ext Q (k a)) -> ext Q (bind m k).
Proof.
  intros Hm Hk st. unfold bind. specialize (Hm st).
  destruct (m st) as [[e|a] st1]; simpl in *; [done|].
  eapply extends_trans; [exact Hm|apply Hk].
Qed.

Lemma ext_lift {A} (r : exn + A) : ext Q (lift r).
Proof. destruct r; [apply ext_raise|apply ext_ret]. Qed.

Lemma ext_get_self : ext Q get_self.
Proof. intros st. apply extends_refl. Qed.

Lemma ext_getattr {A} (f : IPADump -> option A) : ext Q (getattr f).
Proof.
  apply ext_bind; [apply ext_get_self|]. intros s.
  destruct (f s); [apply ext_ret|apply ext_raise].
Qed.

Lemma ext_emit e : Q e -> ext Q (emit e).
Proof.
  intros H st. repeat split. exists [e]. split; [done|].
  by apply Forall_singleton.
Qed.

Lemma ext_try_except {A} (m h : M A) exc :
  ext Q m -> ext Q h -> ext Q (try_except m exc h).
Proof.
  intros Hm Hh st. unfold try_except. specialize (Hm st).
  destruct (m st) as [[e|a] st1]; simpl in *; [|done].
  destruct (decide (e = exc)); [|done].
  eapply extends_trans; [exact Hm|apply Hh].
Qed.

Lemma ext_set_opt_dest c : ext Q (set_opt_dest c).
Proof.
  intros st. repeat split. exists []. simpl. by rewrite app_nil_r.
Qed.

Lemma ext_set_plugins_script ps sc : ext Q (set_plugins_script ps sc).
Proof.
  intros st. repeat split. exists []. simpl. by rewrite app_nil_r.
Qed.

Lemma ext_set_agent_source src : ext Q (set_agent_source src).
Proof.
  intros st. repeat split. exists []. simpl. by rewrite app_nil_r.
Qed.

Lemma ext_set_ipa_name name : ext Q (set_ipa_name name).
Proof.
  intros st. repeat split. exists []. simpl. by rewrite app_nil_r.
Qed.

End Extends.

Lemma extends_weaken (Q Q' : effect -> Prop) st st' :
  (forall e, Q e -> Q' e) -> extends Q st st' -> extends Q' st st'.
Proof.
  intros H (S1 & T1 & es & E & F). repeat split; try done.
  exists es. split; [done|]. eapply Forall_impl; eauto.
Qed.

Create HintDb ext.

#[local] Hint Resolve ext_ret ext_raise ext_lift ext_get_self ext_getattr
  ext_set_opt_dest ext_set_plugins_script ext_set_agent_source
  ext_set_ipa_name : ext.

(** One step through a computation whose effects are all in the
    predicate at hand. *)
Ltac ext_step :=
  first
    [ solve [auto with ext]
    | apply ext_emit; exact I
    | apply ext_try_except
    | apply ext_bind; [|intro]
    | match goal with
      | |- ext _ (match ?x with _ => _ end) => destruct x
      end ].

Ltac ext_auto :=
  unfold device_attach_name, device_attach, new_session, create_script,
    export, print, on_console;
  repeat ext_step.

Lemma ext_set_world_trace (Q : effect -> Prop) e next :
  Q e ->
  ext Q (set_world (fun w => {| trace := trace w ++ [e];
                                next_session := next w;
                                files := files w;
                                handles := handles w;
                                flush_policy := flush_policy w |})).
Proof.
  intros H st. repeat split. exists [e]. split; [done|].
  by apply Forall_singleton.
Qed.

Lemma ext_get_world Q : ext Q get_world.
Proof. intros st. apply extends_refl. Qed.

#[local] Hint Resolve ext_get_world : ext.

Lemma ext_launch_plugins env ids : forall spawned groups,
  ext quiet (launch_plugins env ids spawned groups).
Proof.
  induction ids as [|id ids IH]; intros spawned groups;
    cbn [launch_plugins].
  - apply ext_ret.
  - ext_auto; by apply ext_set_world_trace.
Qed.

Lemma ext_decrypt_plugins env order root container : forall decrypted,
  ext quiet (decrypt_plugins env order root container decrypted).
Proof.
  induction order as [|p order IH]; intros decrypted;
    cbn [decrypt_plugins].
  - apply ext_ret.
  - ext_auto.
Qed.

#[local] Hint Resolve ext_launch_plugins ext_decrypt_plugins : ext.

Lemma ext_dump_with_plugins env : ext quiet (dump_with_plugins env).
Proof.
  unfold dump_with_plugins. ext_auto; by apply ext_set_world_trace.
Qed.

Lemma ext_dump_session env session : ext quiet (dump_session env session).
Proof.
  unfold dump_session. pose proof (ext_dump_with_plugins env). ext_auto.
Qed.

Lemma run_extends env st : extends (fun _ => True) st (run env st).2.
Proof.
  assert (H : ext (fun _ => True) (run env)); [|apply H].
  unfold run, load_agent, dump.
  assert (H1 : ext (fun _ => True) (dump_attach env)).
  { intros s. rewrite dump_attach_spec. apply extends_log.
    apply Forall_forall. done. }
  assert (H2 : forall session, ext (fun _ => True) (dump_session env session)).
  { intros session s. eapply extends_weaken; [|apply ext_dump_session].
    done. }
  ext_auto.
Qed.

Lemma effects_since_log es n st : effects_since st (log es n st) = es.
Proof. by apply effects_since_app. Qed.

Lemma calls_console st text : calls (console_info st text) = [].
Proof. unfold console_info. by destruct (verbose (self st)). Qed.

Lemma calls_app l1 l2 : calls (l1 ++ l2) = (calls l1 ++ calls l2)%list.
Proof. apply filter_app. Qed.

Lemma count_console p st text :
  (forall items, p (Print items) = false) ->
  count p (console_info st text) = 0%nat.
Proof.
  intros H. unfold console_info, count.
  destruct (verbose (self st)); [|done].
  rewrite filter_cons_False; [done|]. by rewrite H.
Qed.

(** C7: the primary session.  If the application runs with pid p and
    another application is in front, the controller kills p, then
    spawns, attaches and resumes, in that order; if it does not run, it
    spawns, attaches, resumes; if it runs and is not displaced, it
    attaches to p and kills nothing.  At most one kill is made, and the
    rest of [dump] does not respawn the application. *)
Theorem C7_primary_session (env : Env) (st : St) :
  let p := app_pid env in
  let fresh := spawn_pid env (Bundle (app_identifier env)) in
  let r := dump_attach env st in
  let tr := calls (effects_since st r.2) in
  (p <> 0 -> (exists f, frontmost env = Some f /\ f <> p) ->
   tr = [GetFrontmost; Kill p; Spawn (Bundle (app_identifier env));
         Attach (ByPid fresh); Resume fresh] /\
   r.1 = inr {| sess_id := next_session (world st);
                sess_target := ByPid fresh |}) /\
  (p = 0 ->
   tr = [GetFrontmost; Spawn (Bundle (app_identifier env));
         Attach (ByPid fresh); Resume fresh] /\
   r.1 = inr {| sess_id := next_session (world st);
                sess_target := ByPid fresh |}) /\
  (p <> 0 -> frontmost env = None \/ frontmost env = Some p ->
   tr = [GetFrontmost; Attach (ByPid p)] /\
   r.1 = inr {| sess_id := next_session (world st);
                sess_target := ByPid p |}) /\
  (count is_kill (effects_since st r.2) <= 1)%nat /\
  (exists rest,
     effects_since st (dump env st).2 =
       (effects_since st r.2 ++ rest)%list /\
     Forall quiet rest).
Proof.
  intros p fresh r tr. subst r tr.
  rewrite dump_attach_spec. simpl. rewrite effects_since_log.
  rewrite calls_app, calls_console, count_app, count_console by done.
  simpl. unfold primary_calls, primary_pid, displaced, running, pid_truthy.
  fold p fresh.
  split; [|split; [|split; [|split]]].
  - intros Hp (f & -> & Hf).
    destruct (Z.eqb_spec p 0) as [|_]; [done|]. simpl.
    destruct (Z.eqb_spec f p) as [|_]; [done|]. done.
  - intros ->. done.
  - intros Hp Hf.
    destruct (Z.eqb_spec p 0) as [|_]; [done|]. simpl.
    destruct Hf as [->| ->]; [done|]. by rewrite Z.eqb_refl.
  - destruct (p =? 0)%Z; simpl; [unfold count; simpl; lia|].
    destruct (frontmost env) as [f|]; simpl; [|unfold count; simpl; lia].
    destruct (f =? p)%Z; simpl; unfold count; simpl; lia.
  - unfold dump, bind. rewrite dump_attach_spec.
    set (es := (console_info st "attaching to target" ++
                primary_calls env)%list).
    set (s := {| sess_id := next_session (world st);
                 sess_target := ByPid (primary_pid env) |}).
    destruct (ext_dump_session env s (log es 1 st)) as (_ & _ & rest & E & Q).
    exists rest. split; [|done].
    apply effects_since_app. rewrite E. simpl. by rewrite <- app_assoc.
Qed.

Lemma on_message_finish (data : option (list byte)) (st : St) :
  on_message msg_finish data st =
  (print [PText "bye"] ;;
   s <- get_self ;;
   match session s with
   | None => raise AttributeError
   | Some primary => emit (Detach primary) ;; raise (SystemExit 0)
   end) st.
Proof. reflexivity. Qed.

(** C8 (evaluated on the code): [self.session] is [None] from
    [__init__] on, neither [run] nor any delivery assigns it, so on
    "finish" the router prints the closing notice and then raises
    [AttributeError] at [self.session.detach()]: no session is detached,
    the process does not exit, and the messages that follow are still
    routed. *)
Theorem C8_finish_raises (env : Env) (output : option string)
    (verbose keep_watch : bool) (w : World)
    (before after more : list (Message * option (list byte)))
    (data : option (list byte)) :
  let st0 := {| self := IPADump_init output verbose keep_watch;
                world := w |} in
  let st := (deliver after (run env (deliver before st0).2).2).2 in
  let st' := (print [PText "bye"] st).2 in
  session (self st) = None /\
  on_message msg_finish data st = (inl AttributeError, st') /\
  deliver ((msg_finish, data) :: more) st =
    (inl AttributeError :: (deliver more st').1, (deliver more st').2).
Proof.
  intros st0 st st'.
  assert (Hs : session (self st) = None).
  { unfold st.
    rewrite (deliver_invariant
      (fun s => session (self s) =
                session (self (run env (deliver before st0).2).2))
      (fun s s' Hstep P => eq_trans (step_session s s' Hstep) P)
      after _ eq_refl).
    destruct (run_extends env (deliver before st0).2) as (-> & _).
    by rewrite (deliver_invariant
      (fun s => session (self s) = None)
      (fun s s' Hstep P => eq_trans (step_session s s' Hstep) P)
      before st0 eq_refl). }
  assert (Hf : on_message msg_finish data st = (inl AttributeError, st')).
  { rewrite on_message_finish. unfold bind. simpl. rewrite Hs. done. }
  repeat split; try done.
  cbn [deliver]. rewrite Hf. by destruct (deliver more st').
Qed.

Lemma primary_calls_cases env :
  primary_calls env =
    [GetFrontmost; Spawn (Bundle (app_identifier env));
     Attach (ByPid (primary_pid env)); Resume (primary_pid env)] \/
  primary_calls env =
    [GetFrontmost; Kill (app_pid env); Spawn (Bundle (app_identifier env));
     Attach (ByPid (primary_pid env)); Resume (primary_pid env)] \/
  primary_calls env = [GetFrontmost; Attach (ByPid (app_pid env))].
Proof.
  unfold primary_calls.
  destruct (running env); simpl; [|by left].
  destruct (displaced env); [right; by left|right; by right].
Qed.

Lemma count_primary_calls env :
  count (is_export is_decrypt) (primary_calls env) = 0%nat /\
  count (is_export is_archive) (primary_calls env) = 0%nat /\
  count (is_export is_launch) (primary_calls env) = 0%nat /\
  count (is_export is_groups) (primary_calls env) = 0%nat /\
  count (is_export is_path_for_group) (primary_calls env) = 0%nat /\
  count is_attach (primary_calls env) = 1%nat /\
  decrypt_calls (primary_calls env) = [] /\
  archive_calls (primary_calls env) = [].
Proof.
  destruct (primary_calls_cases env) as [-> | [-> | ->]]; by vm_compute.
Qed.

Lemma decrypt_calls_app l1 l2 :
  decrypt_calls (l1 ++ l2) = (decrypt_calls l1 ++ decrypt_calls l2)%list.
Proof. apply omap_app. Qed.

Lemma archive_calls_app l1 l2 :
  archive_calls (l1 ++ l2) = (archive_calls l1 ++ archive_calls l2)%list.
Proof. apply omap_app. Qed.

Lemma decrypt_calls_console st text :
  decrypt_calls (console_info st text) = [].
Proof. unfold console_info. by destruct (verbose (self st)). Qed.

Lemma archive_calls_console st text :
  archive_calls (console_info st text) = [].
Proof. unfold console_info. by destruct (verbose (self st)). Qed.

(** C6: when [plugins()] returns the empty list, [dump] returns after
    exactly one [decrypt] and exactly one [archive], both on the primary
    script, attaches once (the primary session, no plugin session), and
    never calls [launch], [groups] or [path_for_group]. *)
Theorem C6_no_plugins (env : Env) (st : St) (src : string) :
  agent_plugins env = [] ->
  agent_source (self st) = Some src ->
  let r := dump env st in
  let es := effects_since st r.2 in
  let primary := {| sess_id := next_session (world st);
                    sess_target := ByPid (primary_pid env) |} in
  let host := {| script_session := primary |} in
  let root := agent_root env in
  let container := agent_data env ++ "/tmp" in
  r.1 = inr tt /\
  count (is_export is_decrypt) es = 1%nat /\
  count (is_export is_archive) es = 1%nat /\
  count (is_export is_launch) es = 0%nat /\
  count (is_export is_groups) es = 0%nat /\
  count (is_export is_path_for_group) es = 0%nat /\
  count is_attach es = 1%nat /\
  next_session (world r.2) = S (next_session (world st)) /\
  decrypt_calls es = [host] /\
  archive_calls es = [agent_decrypt env primary root container] /\
  es = (console_info st "attaching to target" ++ primary_calls env ++
        [CreateScript primary; SetLogHandler host; OnMessage host;
         Load host; Export host XPlugins; Export host XRoot;
         Export host XData; Export host (XDecrypt root container);
         Export host (XArchive root container
                        (agent_decrypt env primary root container)
                        (opt (self st)));
         Detach primary])%list.
Proof.
  intros Hpl Hsrc r es primary host root container.
  assert (Hr : r.1 = inr tt /\
               next_session (world r.2) = S (next_session (world st)) /\
               trace (world r.2) =
               (trace (world st) ++
                console_info st "attaching to target" ++ primary_calls env ++
                [CreateScript primary; SetLogHandler host; OnMessage host;
                 Load host; Export host XPlugins; Export host XRoot;
                 Export host XData; Export host (XDecrypt root container);
                 Export host (XArchive root container
                                (agent_decrypt env primary root container)
                                (opt (self st)));
                 Detach primary])%list).
  { subst r. unfold dump, bind. rewrite dump_attach_spec.
    fold primary. unfold dump_session, create_script, getattr, bind.
    destruct st as [s [tr n fs hs fp]]. destruct s. simpl in *.
    rewrite Hsrc, Hpl. simpl. rewrite <- !app_assoc. simpl.
    split; [done|]. split; [lia|done]. }
  destruct Hr as (R & N & Tr). apply effects_since_app in Tr.
  fold es in Tr.
  destruct (count_primary_calls env) as (C1 & C2 & C3 & C4 & C5 & C6 & C7 & C8).
  rewrite Tr.
  rewrite !count_app, !decrypt_calls_app, !archive_calls_app,
    !count_console, decrypt_calls_console, archive_calls_console,
    C1, C2, C3, C4, C5, C6, C7, C8 by done.
  repeat split; done.
Qed.

Lemma C6_witness :
  count (is_export is_decrypt)
    (effects_since (load_agent (env_example []) st_new).2
       (dump (env_example []) (load_agent (env_example []) st_new).2).2)
  = 1%nat.
Proof.
  apply (C6_no_plugins (env_example [])
           (load_agent (env_example []) st_new).2 "agent"
           eq_refl eq_refl).
Defined.

(** ** The plugin path *)

Lemma launch_plugins_spec env host src ids : forall spawned groups st,
  script (self st) = Some host ->
  agent_source (self st) = Some src ->
  let ps := launched env (next_session (world st)) ids in
  launch_plugins env ids spawned groups st =
  (inr (foldl (fun s p => set_add p s) spawned ps,
        (groups ++ map (plugin_groups env) ps)%list),
   log (flat_map (launch_effects host) ps) (length ids) st).
Proof.
  induction ids as [|id ids IH]; intros spawned groups st Hh Hs;
    cbn [launch_plugins launched].
  - simpl. by rewrite app_nil_r, log_nil.
  - unfold create_script, device_attach, new_session, export, print, emit,
      getattr, bind.
    destruct st as [s [tr n fs hs fp]]. simpl in *. rewrite Hh. simpl.
    rewrite Hs. simpl.
    rewrite IH by done. simpl. unfold log. simpl.
    rewrite <- !app_assoc. simpl.
    by rewrite Nat.add_succ_r.
Qed.

Lemma set_add_launched env ids : forall n spawned,
  (forall p, p ∈ spawned -> (sess_id (plugin_session p) < n)%nat) ->
  foldl (fun s p => set_add p s) spawned (launched env n ids) =
  (spawned ++ launched env n ids)%list.
Proof.
  induction ids as [|id ids IH]; intros n spawned Hlt; simpl.
  - by rewrite app_nil_r.
  - unfold set_add at 2.
    destruct (decide (mk_plugin env n id ∈ spawned)) as [Hin|_].
    { apply Hlt in Hin. simpl in Hin. lia. }
    rewrite IH.
    + by rewrite <- app_assoc.
    + intros p Hp. apply elem_of_app in Hp as [Hp|Hp].
      * apply Hlt in Hp. lia.
      * apply list_elem_of_singleton in Hp as ->. simpl. lia.
Qed.

Lemma decrypt_plugins_spec env order root container : forall decrypted st,
  decrypt_plugins env order root container decrypted st =
  (inr (decrypted ++
        concat (map (plugin_manifest env root container) order))%list,
   log (flat_map (teardown_effects root container) order) 0 st).
Proof.
  induction order as [|p order IH]; intros decrypted st;
    cbn [decrypt_plugins].
  - simpl. by rewrite app_nil_r, log_nil.
  - unfold bind, export, emit, bind. simpl. rewrite IH.
    unfold log, plugin_manifest. simpl.
    rewrite <- !app_assoc. simpl. done.
Qed.

Lemma iter_order_perm {A} n : forall choices (s : list A),
  length s = n -> iter_order n choices s ≡ₚ s.
Proof.
  induction n as [|n IH]; intros choices s Hlen; simpl.
  - by destruct s.
  - assert (Hi : (hd 0%nat choices `mod` length s < length s)%nat).
    { apply Nat.mod_upper_bound. lia. }
    apply lookup_lt_is_Some in Hi as [x Hx]. rewrite Hx.
    etrans; [|symmetry; apply (delete_Permutation s _ x Hx)].
    constructor. apply IH.
    pose proof (length_delete s _ (mk_is_Some _ _ Hx)). lia.
Qed.

Lemma set_iter_perm {A} choices (s : list A) : set_iter choices s ≡ₚ s.
Proof. by apply iter_order_perm. Qed.

Lemma iter_order_zero {A} n : forall choices (s : list A),
  length s = n -> Forall (fun c => c = 0%nat) choices ->
  iter_order n choices s = s.
Proof.
  induction n as [|n IH]; intros choices s Hlen Hz; simpl.
  - by destruct s.
  - destruct s as [|x s]; [done|].
    assert (hd 0%nat choices = 0%nat) as ->.
    { destruct Hz; [done|]. done. }
    simpl. rewrite Nat.sub_diag. simpl. f_equal. apply IH.
    + simpl in Hlen. lia.
    + destruct Hz; [done|]. done.
Qed.

Lemma common_groups_launched env n ids :
  ids <> [] ->
  set_intersection (map (plugin_groups env) (launched env n ids)) =
  inr (common_groups env (launched env n ids)).
Proof. destruct ids; [done|]. intros _. reflexivity. Qed.

Lemma dump_with_plugins_spec (env : Env) (st : St) (host : Script)
    (src : string) (ids : list string) :
  plugins (self st) = Some ids ->
  ids <> [] ->
  script (self st) = Some host ->
  agent_source (self st) = Some src ->
  pkd_running env || pkd_started env = true ->
  let n := next_session (world st) in
  let pkd := {| sess_id := n; sess_target := ByName "pkd" |} in
  let ps := launched env (S n) ids in
  let root := agent_root env in
  let pre :=
    (pkd_calls env ++
     [CreateScript pkd; Load {| script_session := pkd |};
      Export {| script_session := pkd |}
        (XSkipPkdValidationFor (app_pid env))] ++
     flat_map (launch_effects host) ps ++ [Detach pkd])%list in
  let r := dump_with_plugins env st in
  match set_pop (pop_choice env) (common_groups env ps) with
  | inl e => r.1 = inl e /\ trace (world r.2) = (trace (world st) ++ pre)%list
  | inr g =>
    if str_truthy g then
      let container := agent_path_for_group env g in
      let order := set_iter (hash_order env) ps in
      r.1 = inr tt /\
      trace (world r.2) =
        (trace (world st) ++ pre ++
         [Export host XRoot; Export host (XPathForGroup g)] ++
         (if verbose (self st) then
            [Print [PText "group:"; PText g];
             Print [PText "container:"; PText container];
             Print [PText "root:"; PText root]]
          else []) ++
         [Export host (XDecrypt root container)] ++
         flat_map (teardown_effects root container) order ++
         [Export host
            (XArchive root container
               (agent_decrypt env (script_session host) root container ++
                concat (map (plugin_manifest env root container) order))
               {| keepWatch := keepWatch (opt (self st));
                  dest := Some container |})])%list
    else
      r.1 = inl (RuntimeError no_group_message) /\
      trace (world r.2) = (trace (world st) ++ pre)%list
  end.
Proof.
  intros Hids Hne Hhost Hsrc Hpkd n pkd ps root pre r.
  subst r pre ps pkd n root.
  destruct st as [s [tr n fs hs fp]]. destruct s. simpl in *. subst.
  unfold dump_with_plugins, pkd_calls.
  unfold try_except, device_attach_name, new_session, create_script, getattr,
    export, emit, print, bind.
  destruct (pkd_running env); simpl.
  - rewrite (launch_plugins_spec env host src) by done. simpl.
    rewrite (set_add_launched env ids (S n) []) by (intros p Hp; by apply elem_of_nil in Hp).
    simpl. rewrite common_groups_launched by done. simpl.
    destruct (set_pop (pop_choice env) (common_groups env (launched env (S n) ids)))
      as [e|g]; simpl.
    { split; [done|]. by rewrite <- !app_assoc. }
    destruct (str_truthy g); simpl.
    + destruct verbose0; simpl; rewrite decrypt_plugins_spec; simpl;
        (split; [done|]); rewrite <- !app_assoc; simpl; done.
    + split; [done|]. by rewrite <- !app_assoc.
  - simpl in Hpkd. rewrite Hpkd. simpl.
    rewrite (launch_plugins_spec env host src) by done. simpl.
    rewrite (set_add_launched env ids (S n) []) by (intros p Hp; by apply elem_of_nil in Hp).
    simpl. rewrite common_groups_launched by done. simpl.
    destruct (set_pop (pop_choice env) (common_groups env (launched env (S n) ids)))
      as [e|g]; simpl.
    { split; [done|]. by rewrite <- !app_assoc. }
    destruct (str_truthy g); simpl.
    + destruct verbose0; simpl; rewrite decrypt_plugins_spec; simpl;
        (split; [done|]); rewrite <- !app_assoc; simpl; done.
    + split; [done|]. by rewrite <- !app_assoc.
Qed.

Lemma dump_plugins_spec (env : Env) (st : St) (src : string) :
  agent_plugins env <> [] ->
  agent_source (self st) = Some src ->
  pkd_running env || pkd_started env = true ->
  let ps := launched env (S (S (next_session (world st))))
              (agent_plugins env) in
  let r := dump env st in
  match set_pop (pop_choice env) (common_groups env ps) with
  | inl e => r.1 = inl e /\ effects_since st r.2 = plugin_setup env st
  | inr g =>
    if str_truthy g then
      r.1 = inr tt /\
      effects_since st r.2 =
        (plugin_setup env st ++
         plugin_dump env st g (set_iter (hash_order env) ps))%list
    else
      r.1 = inl (RuntimeError no_group_message) /\
      effects_since st r.2 = plugin_setup env st
  end.
Proof.
  intros Hne Hsrc Hpkd ps r.
  assert (Hlen : (0 <? length (agent_plugins env))%nat = true).
  { apply Nat.ltb_lt. destruct (agent_plugins env); [done|simpl; lia]. }
  set (primary := {| sess_id := next_session (world st);
                     sess_target := ByPid (primary_pid env) |}).
  set (host := {| script_session := primary |}).
  set (st1 := (set_plugins_script (agent_plugins env) host
     (log ((console_info st "attaching to target" ++ primary_calls env) ++
           [CreateScript primary; SetLogHandler host; OnMessage host;
            Load host; Export host XPlugins]) 1 st)).2).
  assert (Hr : r = bind (dump_with_plugins env)
                     (fun _ => emit (Detach primary)) st1).
  { subst r st1. unfold dump, bind. rewrite dump_attach_spec.
    fold primary. unfold dump_session, create_script, getattr, export, emit,
      bind.
    destruct st as [s [tr n fs hs fp]]. destruct s. simpl in *. subst.
    rewrite Hlen. unfold log. simpl. rewrite <- !app_assoc. done. }
  pose proof (dump_with_plugins_spec env st1 host src (agent_plugins env))
    as Hspec.
  assert (Hn : next_session (world st1) = S (next_session (world st))).
  { subst st1. simpl. lia. }
  assert (Htr : trace (world st1) =
                (trace (world st) ++
                 (console_info st "attaching to target" ++
                  primary_calls env) ++
                 [CreateScript primary; SetLogHandler host; OnMessage host;
                  Load host; Export host XPlugins])%list) by done.
  assert (Hv : verbose (self st1) = verbose (self st)) by done.
  assert (Ho : opt (self st1) = opt (self st)) by done.
  specialize (Hspec eq_refl Hne eq_refl).
  rewrite Hn, Htr, Hv, Ho in Hspec.
  assert (Hsrc1 : agent_source (self st1) = Some src) by done.
  specialize (Hspec Hsrc1 Hpkd). simpl in Hspec. fold ps in Hspec.
  clearbody st1.
  destruct (set_pop (pop_choice env) (common_groups env ps)) as [e|g].
  - rewrite Hr. unfold bind.
    destruct (dump_with_plugins env st1) as [res st2]. simpl in *.
    destruct Hspec as [-> Htr2]. simpl. split; [done|].
    apply effects_since_app. rewrite Htr2. unfold plugin_setup.
    fold primary host. rewrite <- !app_assoc. reflexivity.
  - destruct (str_truthy g).
    + rewrite Hr. unfold bind.
      destruct (dump_with_plugins env st1) as [res st2]. simpl in *.
      destruct Hspec as [-> Htr2]. simpl. split; [done|].
      apply effects_since_app. rewrite Htr2.
      unfold plugin_setup, plugin_dump. fold primary host ps.
      destruct (verbose (self st)); simpl;
        repeat (rewrite <- !app_assoc; simpl); reflexivity.
    + rewrite Hr. unfold bind.
      destruct (dump_with_plugins env st1) as [res st2]. simpl in *.
      destruct Hspec as [-> Htr2]. simpl. split; [done|].
      apply effects_since_app. rewrite Htr2. unfold plugin_setup.
      fold primary host. rewrite <- !app_assoc. reflexivity.
Qed.

Lemma omap_flat_map_nil {A B} (f : effect -> option A)
    (g : B -> list effect) (l : list B) :
  (forall b, omap f (g b) = []) -> omap f (flat_map g l) = [].
Proof.
  intros H. induction l as [|b l IH]; [done|].
  cbn [flat_map]. by rewrite omap_app, H, IH.
Qed.

Lemma count_omap {A} (p : effect -> bool) (f : effect -> option A) tr :
  (forall e, p e = true <-> is_Some (f e)) ->
  count p tr = length (omap f tr).
Proof.
  intros H. unfold count. induction tr as [|e tr IH]; [done|].
  rewrite filter_cons. cbn [omap list_omap].
  destruct (decide (p e = true)) as [Hp|Hp].
  - apply H in Hp as [x ->]. simpl. by rewrite IH.
  - destruct (f e) as [x|] eqn:E; [|exact IH].
    exfalso. apply Hp, H. by rewrite E.
Qed.

Lemma count_decrypt tr :
  count (is_export is_decrypt) tr = length (decrypt_calls tr).
Proof.
  apply count_omap. intros [| | | | | | | | | |s []| | | | |]; simpl;
    split; try done; by intros [? ?].
Qed.

Lemma count_archive tr :
  count (is_export is_archive) tr = length (archive_calls tr).
Proof.
  apply count_omap. intros [| | | | | | | | | |s []| | | | |]; simpl;
    split; try done; by intros [? ?].
Qed.

Lemma count_path_for_group tr :
  count (is_export is_path_for_group) tr = length (group_calls tr).
Proof.
  apply count_omap. intros [| | | | | | | | | |s []| | | | |]; simpl;
    split; try done; by intros [? ?].
Qed.

Lemma pkd_calls_cases env :
  pkd_calls env = [Attach (ByName "pkd")] \/
  pkd_calls env = [Attach (ByName "pkd"); Spawn launchctl;
                   Resume (spawn_pid env launchctl); Attach (ByName "pkd")].
Proof. unfold pkd_calls. destruct (pkd_running env); auto. Qed.

(** What the readers see in the setup of the plugin path. *)
Lemma plugin_setup_calls env st :
  decrypt_calls (plugin_setup env st) = [] /\
  archive_calls (plugin_setup env st) = [] /\
  group_calls (plugin_setup env st) = [] /\
  detach_calls (plugin_setup env st) =
    [{| sess_id := S (next_session (world st));
        sess_target := ByName "pkd" |}] /\
  kill_calls (plugin_setup env st) = kill_calls (primary_calls env).
Proof.
  unfold plugin_setup, decrypt_calls, archive_calls, group_calls,
    detach_calls, kill_calls.
  rewrite !omap_app.
  rewrite !(omap_flat_map_nil _ (launch_effects _)) by done.
  unfold console_info.
  destruct (verbose (self st));
    destruct (primary_calls_cases env) as [-> | [-> | ->]];
    destruct (pkd_calls_cases env) as [-> | ->]; done.
Qed.

Lemma launched_sess_id (env : Env) (ids : list string) : forall n p,
  p ∈ launched env n ids -> (n <= sess_id (plugin_session p))%nat.
Proof.
  induction ids as [|id ids IH]; intros n p Hp; simpl in Hp.
  - by apply elem_of_nil in Hp.
  - apply elem_of_cons in Hp as [->|Hp]; [simpl; lia|].
    apply IH in Hp. lia.
Qed.

Lemma launched_ids (env : Env) (ids : list string) : forall n,
  map plugin_id (launched env n ids) = ids.
Proof. induction ids as [|id ids IH]; intros n; simpl; [done|]. by rewrite IH. Qed.

Lemma teardown_calls root container order :
  decrypt_calls (flat_map (teardown_effects root container) order) =
    map plugin_script order /\
  archive_calls (flat_map (teardown_effects root container) order) = [] /\
  group_calls (flat_map (teardown_effects root container) order) = [] /\
  detach_calls (flat_map (teardown_effects root container) order) =
    map plugin_session order /\
  kill_calls (flat_map (teardown_effects root container) order) =
    map plugin_pid order.
Proof.
  unfold decrypt_calls, archive_calls, group_calls, detach_calls, kill_calls.
  split; [|split; [|split; [|split]]].
  - induction order as [|p order IH]; [done|].
    cbn [flat_map map]. by rewrite omap_app, IH.
  - by apply omap_flat_map_nil.
  - by apply omap_flat_map_nil.
  - induction order as [|p order IH]; [done|].
    cbn [flat_map map]. by rewrite omap_app, IH.
  - induction order as [|p order IH]; [done|].
    cbn [flat_map map]. by rewrite omap_app, IH.
Qed.

Lemma plugin_dump_calls env st g order :
  let primary := {| sess_id := next_session (world st);
                    sess_target := ByPid (primary_pid env) |} in
  let host := {| script_session := primary |} in
  let root := agent_root env in
  let container := agent_path_for_group env g in
  decrypt_calls (plugin_dump env st g order) =
    host :: map plugin_script order /\
  archive_calls (plugin_dump env st g order) =
    [(agent_decrypt env primary root container ++
      concat (map (plugin_manifest env root container) order))%list] /\
  group_calls (plugin_dump env st g order) = [g] /\
  detach_calls (plugin_dump env st g order) =
    (map plugin_session order ++ [primary])%list /\
  kill_calls (plugin_dump env st g order) = map plugin_pid order.
Proof.
  intros primary host root container.
  destruct (teardown_calls root container order)
    as (T1 & T2 & T3 & T4 & T5).
  unfold plugin_dump. fold primary host root container.
  unfold decrypt_calls, archive_calls, group_calls, detach_calls, kill_calls
    in *.
  rewrite !omap_app, T1, T2, T3, T4, T5.
  destruct (verbose (self st)); simpl; rewrite ?app_nil_r; done.
Qed.

Lemma set_pop_empty choice : set_pop choice ∅ = inl KeyError.
Proof. unfold set_pop. by rewrite elements_empty. Qed.

Lemma set_pop_singleton choice g : set_pop choice {[g]} = inr g.
Proof.
  unfold set_pop. rewrite elements_singleton, size_singleton.
  by rewrite Nat.mod_1_r.
Qed.

Lemma set_pop_elem_of choice X g : set_pop choice X = inr g -> g ∈ X.
Proof.
  unfold set_pop. intros H.
  destruct (elements X !! (choice `mod` size X)%nat) as [x|] eqn:E; [|done].
  injection H as ->. apply elem_of_elements.
  by eapply list_elem_of_lookup_2.
Qed.

Lemma elem_of_foldl_intersection (g : string) (sets : list (gset string)) :
  forall X, g ∈ foldl (∩) X sets <-> g ∈ X /\ forall Y, Y ∈ sets -> g ∈ Y.
Proof.
  induction sets as [|Y sets IH]; intros X; simpl.
  - split; [|by intros [? _]]. intros H. split; [done|].
    intros Y HY. by apply elem_of_nil in HY.
  - rewrite IH, elem_of_intersection. split.
    + intros [[HX HY] Hs]. split; [done|]. intros Z HZ.
      apply elem_of_cons in HZ as [->|HZ]; auto.
    + intros [HX Hs]. split; [split; [done|]|].
      * apply Hs. by left.
      * intros Z HZ. apply Hs. by right.
Qed.

Lemma elem_of_common_groups env ps g :
  ps <> [] ->
  g ∈ common_groups env ps <-> forall p, p ∈ ps -> g ∈ plugin_groups env p.
Proof.
  destruct ps as [|p0 ps]; [done|]. intros _.
  unfold common_groups. simpl. rewrite elem_of_foldl_intersection. split.
  - intros [H0 Hs] p Hp. apply elem_of_cons in Hp as [->|Hp]; [done|].
    apply Hs. by apply list_elem_of_fmap_2.
  - intros H. split; [apply H; by left|].
    intros Y HY. apply list_elem_of_fmap in HY as (p & -> & Hp).
    apply H. by right.
Qed.

Lemma str_truthy_true g : str_truthy g = true <-> g <> "".
Proof. by destruct g. Qed.

(** ** Properties of the plugin path *)

(** C1, as the code has it: on the plugin path, with the daemon
    reachable, group resolution succeeds if and only if the intersection
    of the plugins' group sets is not empty and the element that
    [set.pop()] takes from it is not the empty string; the group handed
    to [path_for_group] is then that element, a group of every plugin.
    With exactly one, non-empty, common group the run succeeds with that
    group.  With an empty intersection the run aborts before any
    [decrypt], [path_for_group] or [archive] call: no group is picked. *)
Theorem C1_group_resolution (env : Env) (st : St) (src : string) :
  agent_plugins env <> [] ->
  agent_source (self st) = Some src ->
  pkd_running env || pkd_started env = true ->
  let ps := launched env (S (S (next_session (world st))))
              (agent_plugins env) in
  let common := common_groups env ps in
  let r := dump env st in
  let es := effects_since st r.2 in
  (forall g, g ∈ common <-> forall p, p ∈ ps -> g ∈ plugin_groups env p) /\
  (r.1 = inr tt <->
   exists g, set_pop (pop_choice env) common = inr g /\ g <> "") /\
  (r.1 = inr tt ->
   exists g, g ∈ common /\ g <> "" /\ group_calls es = [g]) /\
  (forall g, common = {[g]} -> g <> "" ->
   r.1 = inr tt /\ group_calls es = [g]) /\
  (common = ∅ ->
   (exists e, r.1 = inl e) /\
   decrypt_calls es = [] /\
   count (is_export is_decrypt) es = 0%nat /\
   group_calls es = [] /\
   archive_calls es = []).
Proof.
  intros Hne Hsrc Hpkd ps common r es.
  pose proof (dump_plugins_spec env st src Hne Hsrc Hpkd) as Hspec.
  simpl in Hspec. fold ps common r es in Hspec.
  destruct (plugin_setup_calls env st) as (S1 & S2 & S3 & _).
  assert (Hps : ps <> []).
  { subst ps. destruct (agent_plugins env); [done|]. done. }
  split; [intros g; by apply elem_of_common_groups|].
  destruct (set_pop (pop_choice env) common) as [e|g] eqn:Hpop.
  - destruct Hspec as [Hr Hes].
    split; [|split; [|split]].
    + rewrite Hr. split; [done|]. by intros (g & Hg & _).
    + rewrite Hr. done.
    + intros g Hc Hg. rewrite Hc, set_pop_singleton in Hpop. done.
    + intros _. rewrite count_decrypt, Hes, S1, S2, S3, Hr.
      split; [by exists e|done].
  - assert (Hin : g ∈ common) by (by eapply set_pop_elem_of).
    destruct (str_truthy g) eqn:Hg.
    + destruct Hspec as [Hr Hes].
      destruct (plugin_dump_calls env st g (set_iter (hash_order env) ps))
        as (_ & _ & D3 & _).
      assert (Hgc : group_calls es = [g]).
      { rewrite Hes. unfold group_calls in *. by rewrite omap_app, S3, D3. }
      apply str_truthy_true in Hg.
      split; [|split; [|split]].
      * rewrite Hr. split; [|done]. intros _. by exists g.
      * intros _. by exists g.
      * intros g' Hc Hg'. split; [done|].
        rewrite Hc in Hin. apply elem_of_singleton in Hin. by subst g'.
      * intros Hc. rewrite Hc in Hin. by apply not_elem_of_empty in Hin.
    + destruct Hspec as [Hr Hes].
      assert (Hg' : g = "") by (by destruct g).
      split; [|split; [|split]].
      * rewrite Hr. split; [done|]. intros (g' & Hg1 & Hg2). congruence.
      * rewrite Hr. done.
      * intros g' Hc Hne'. rewrite Hc in Hin.
        apply elem_of_singleton in Hin. congruence.
      * intros Hc. rewrite Hc in Hin. by apply not_elem_of_empty in Hin.
Qed.

Lemma C1_witness :
  let es := effects_since st_loaded (dump (env_example ["ext.x"]) st_loaded).2
  in
  (dump (env_example ["ext.x"]) st_loaded).1 = inr tt /\
  group_calls es = ["group.a"].
Proof.
  apply (C1_group_resolution (env_example ["ext.x"]) st_loaded "agent");
    try reflexivity; done.
Defined.

(** C1 as stated fails twice.  Two plugins that share two groups: the
    intersection has two elements and the resolution succeeds all the
    same.  Two plugins with disjoint group sets: the run aborts with the
    [KeyError] of [set.pop()], not with the documented [RuntimeError]. *)
Lemma C1_counterexample :
  (size (common_groups env_two_groups
           (launched env_two_groups 2 (agent_plugins env_two_groups)))
     = 2%nat /\
   (dump env_two_groups st_loaded).1 = inr tt /\
   group_calls (effects_since st_loaded (dump env_two_groups st_loaded).2)
     = ["group.a"]) /\
  (common_groups env_disjoint
     (launched env_disjoint 2 (agent_plugins env_disjoint)) = ∅ /\
   (dump env_disjoint st_loaded).1 = inl KeyError /\
   (dump env_disjoint st_loaded).1 <> inl (RuntimeError no_group_message)).
Proof.
  split.
  - split; [by vm_compute|]. split; by vm_compute.
  - split; [by vm_compute|].
    assert (H : (dump env_disjoint st_loaded).1 = inl KeyError)
      by (by vm_compute).
    split; [exact H|]. rewrite H. discriminate.
Qed.

(** C2, as the code has it: on the plugin path, once the group is
    resolved, [decrypt] is called on the host script and then once on
    the script of every plugin, in the order in which Python iterates
    over the set [spawned]: a permutation of the launch order, and the
    launch order itself when the set iterates in insertion order.  The
    manifests are concatenated in that same order, [archive] is called
    exactly once, after all the [decrypt] calls, with the concatenated
    manifest and with the container as ['dest'], and each plugin is
    detached and killed right after its own [decrypt] call, not
    before. *)
Theorem C2_plugin_dump (env : Env) (st : St) (src g : string) :
  agent_plugins env <> [] ->
  agent_source (self st) = Some src ->
  pkd_running env || pkd_started env = true ->
  let n := next_session (world st) in
  let ps := launched env (S (S n)) (agent_plugins env) in
  set_pop (pop_choice env) (common_groups env ps) = inr g ->
  g <> "" ->
  let primary := {| sess_id := n; sess_target := ByPid (primary_pid env) |} in
  let host := {| script_session := primary |} in
  let root := agent_root env in
  let container := agent_path_for_group env g in
  let order := set_iter (hash_order env) ps in
  let merged :=
    (agent_decrypt env primary root container ++
     concat (map (plugin_manifest env root container) order))%list in
  let r := dump env st in
  let es := effects_since st r.2 in
  r.1 = inr tt /\
  map plugin_id ps = agent_plugins env /\
  order ≡ₚ ps /\
  (Forall (fun c => c = 0%nat) (hash_order env) -> order = ps) /\
  decrypt_calls es = host :: map plugin_script order /\
  archive_calls es = [merged] /\
  count (is_export is_archive) es = 1%nat /\
  exists setup,
    es = (setup ++ [Export host (XDecrypt root container)] ++
          flat_map (teardown_effects root container) order ++
          [Export host
             (XArchive root container merged
                {| keepWatch := keepWatch (opt (self st));
                   dest := Some container |});
           Detach primary])%list /\
    decrypt_calls setup = [] /\
    archive_calls setup = [] /\
    (forall p, p ∈ ps -> Detach (plugin_session p) ∉ setup) /\
    kill_calls setup = kill_calls (primary_calls env).
Proof.
  intros Hne Hsrc Hpkd n ps Hpop Hg primary host root container order
    merged r es.
  pose proof (dump_plugins_spec env st src Hne Hsrc Hpkd) as Hspec.
  simpl in Hspec. fold n ps in Hspec. rewrite Hpop in Hspec.
  apply str_truthy_true in Hg. rewrite Hg in Hspec.
  fold order r es in Hspec. destruct Hspec as [Hr Hes].
  destruct (plugin_setup_calls env st) as (S1 & S2 & S3 & S4 & S5).
  destruct (plugin_dump_calls env st g order) as (D1 & D2 & D3 & D4 & D5).
  fold n primary host root container merged in D1, D2.
  split; [done|].
  split; [apply launched_ids|].
  split; [apply set_iter_perm|].
  split; [intros Hz; by apply iter_order_zero|].
  split; [rewrite Hes; unfold decrypt_calls in *;
          by rewrite omap_app, S1, D1|].
  assert (Ha : archive_calls es = [merged]).
  { rewrite Hes. unfold archive_calls in *. by rewrite omap_app, S2, D2. }
  split; [done|].
  split; [by rewrite count_archive, Ha|].
  exists (plugin_setup env st ++
          [Export host XRoot; Export host (XPathForGroup g)] ++
          (if verbose (self st) then
             [Print [PText "group:"; PText g];
              Print [PText "container:"; PText container];
              Print [PText "root:"; PText root]]
           else []))%list.
  split; [|split; [|split; [|split]]].
  - rewrite Hes. unfold plugin_dump.
    fold n primary host root container merged.
    rewrite <- !app_assoc. reflexivity.
  - unfold decrypt_calls in *. rewrite !omap_app, S1.
    by destruct (verbose (self st)).
  - unfold archive_calls in *. rewrite !omap_app, S2.
    by destruct (verbose (self st)).
  - intros p Hp Hin.
    assert (Hd : plugin_session p ∈
              detach_calls (plugin_setup env st ++
                [Export host XRoot; Export host (XPathForGroup g)] ++
                (if verbose (self st) then
                   [Print [PText "group:"; PText g];
                    Print [PText "container:"; PText container];
                    Print [PText "root:"; PText root]]
                 else []))%list).
    { unfold detach_calls. apply list_elem_of_omap.
      exists (Detach (plugin_session p)). by split. }
    unfold detach_calls in Hd, S4. rewrite !omap_app, S4 in Hd.
    assert (Hd' : plugin_session p ∈
              [{| sess_id := S n; sess_target := ByName "pkd" |}]).
    { by destruct (verbose (self st)). }
    apply list_elem_of_singleton in Hd'.
    apply launched_sess_id in Hp. rewrite Hd' in Hp. simpl in Hp. lia.
  - unfold kill_calls in *. rewrite !omap_app, S5.
    destruct (verbose (self st)); simpl; by rewrite app_nil_r.
Qed.

Lemma C2_witness :
  let es := effects_since st_loaded (dump env_reversed st_loaded).2 in
  (dump env_reversed st_loaded).1 = inr tt /\
  archive_calls es = [[VStr "app.bin"; VStr "y.bin"; VStr "x.bin"]].
Proof.
  assert (Hpop : set_pop (pop_choice env_reversed)
            (common_groups env_reversed
               (launched env_reversed 2 (agent_plugins env_reversed)))
          = inr "group.a") by (vm_compute; reflexivity).
  assert (Hne : agent_plugins env_reversed <> []) by discriminate.
  assert (Hg : "group.a" <> "") by discriminate.
  destruct (C2_plugin_dump env_reversed st_loaded "agent" "group.a"
              Hne eq_refl eq_refl Hpop Hg)
    as (R & _ & _ & _ & _ & A & _).
  split; [exact R|exact A].
Defined.

(** C2 as stated fails where the set [spawned] does not iterate in
    insertion order: the plugins are launched "ext.x" then "ext.y", and
    [decrypt] is called on the script of "ext.y" before that of
    "ext.x"; the manifest handed to [archive] follows the same order. *)
Lemma C2_counterexample :
  let es := effects_since st_loaded (dump env_reversed st_loaded).2 in
  let host := {| script_session :=
                   {| sess_id := 0; sess_target := ByPid 100 |} |} in
  let x := {| script_session :=
                {| sess_id := 2; sess_target := ByPid 201 |} |} in
  let y := {| script_session :=
                {| sess_id := 3; sess_target := ByPid 202 |} |} in
  (dump env_reversed st_loaded).1 = inr tt /\
  map plugin_script (launched env_reversed 2 (agent_plugins env_reversed))
    = [x; y] /\
  decrypt_calls es = [host; y; x] /\
  decrypt_calls es <>
    host :: map plugin_script
              (launched env_reversed 2 (agent_plugins env_reversed)) /\
  archive_calls es = [[VStr "app.bin"; VStr "y.bin"; VStr "x.bin"]].
Proof.
  intros es host x y.
  assert (H : decrypt_calls es = [host; y; x]) by (by vm_compute).
  split; [by vm_compute|]. split; [by vm_compute|].
  split; [exact H|]. split; [|by vm_compute].
  rewrite H. by vm_compute.
Qed.

(** ** More on the router and the download manager *)

(** X1: a message that is not a download never touches the download
    manager.  A message whose type is not "send" is printed and the
    handler returns; a "send" message whose payload is not an object
    raises [AttributeError] at [payload.get] with nothing done; a "send"
    message with a subject other than "download" and "finish" prints two
    lines and returns.  In all of them the object and the files are as
    before. *)
Theorem router_other_messages (msg : Message) (data : option (list byte))
    (st : St) :
  let r := on_message msg data st in
  (is_str (msg_type msg) "send" = false ->
   r = (inr tt, (print [PText "unknown message:"; PMsg msg] st).2)) /\
  (is_str (msg_type msg) "send" = true ->
   forall v, msg_payload msg = Some (POther v) ->
   r = (inl AttributeError, st)) /\
  (is_str (msg_type msg) "send" = true ->
   forall d, default (PDict ∅) (msg_payload msg) = PDict d ->
   is_str (d !! "subject") "download" = false ->
   is_str (d !! "subject") "finish" = false ->
   r = (inr tt,
        (print [PMsg msg] (print [PText "unknown message"] st).2).2)) /\
  (is_download msg = false ->
   self r.2 = self st /\
   files (world r.2) = files (world st) /\
   handles (world r.2) = handles (world st) /\
   next_session (world r.2) = next_session (world st) /\
   count (fun e => negb (is_print e || match e with
                                        | Detach _ => true
                                        | _ => false
                                        end))
     (effects_since st r.2) = 0%nat).
Proof.
  intros r. subst r. unfold on_message, is_download.
  split; [|split; [|split]].
  - intros ->. reflexivity.
  - intros -> v ->. reflexivity.
  - intros -> d -> -> ->. reflexivity.
  - destruct (is_str (msg_type msg) "send"); simpl.
    2:{ intros _. repeat split. unfold effects_since. simpl.
        by rewrite drop_app_length. }
    destruct (default (PDict ∅) (msg_payload msg)) as [d|v]; simpl.
    2:{ intros _. repeat split. unfold effects_since.
        by rewrite drop_all. }
    intros ->.
    destruct (is_str (d !! "subject") "finish"); unfold bind, print; simpl.
    + destruct (session (self st)); simpl; repeat split;
        unfold effects_since; simpl; rewrite <- ?app_assoc;
        by rewrite drop_app_length.
    + repeat split. unfold effects_since. simpl. rewrite <- app_assoc.
      by rewrite drop_app_length.
Qed.

(** X2: a download event that the handler cannot be called with raises
    [TypeError] and changes nothing: a payload that carries a ['data'] or
    a ['self'] field of its own, a payload without ['session'], a
    "start" without ['size']; and so does a "data" event that comes
    without bytes for a stream in flight, whose task stays in the map. *)
Theorem malformed_download_raises (st : St) (msg : Message)
    (data : option (list byte)) (d : gmap string pyval) (m : method) :
  msg_type msg = Some (VStr "send") ->
  msg_payload msg = Some (PDict d) ->
  d !! "subject" = Some (VStr "download") ->
  method_mapping (d !! "event") = inr m ->
  (is_Some (d !! "data") \/ is_Some (d !! "self") \/
   d !! "session" = None \/
   (m = m_on_download_start /\ d !! "size" = None) ->
   on_message msg data st = (inl TypeError, st)) /\
  (forall key k t,
     m = m_on_download_data -> data = None ->
     d !! "data" = None -> d !! "self" = None ->
     d !! "session" = Some key -> hash_key key = inr k ->
     tasks (self st) !! k = Some t ->
     on_message msg data st = (inl TypeError, st)).
Proof.
  intros Hty Hpl Hsub Hm. unfold on_message. rewrite Hty, Hpl. simpl.
  rewrite Hsub. simpl. unfold bind at 1. rewrite Hm. simpl.
  unfold call_method. split.
  - intros [[v Hd]|[[v Hs]|[Hs|[-> Hs]]]].
    + by rewrite Hd.
    + rewrite Hs. by destruct (d !! "data").
    + destruct (d !! "data"); [done|]. destruct (d !! "self"); [done|].
      unfold bind, kwarg. rewrite Hs. by destruct m.
    + destruct (d !! "data"); [done|]. destruct (d !! "self"); [done|].
      unfold bind, kwarg. rewrite Hs.
      by destruct (d !! "session").
  - intros key k t -> -> Hd Hself Hsess Hk Ht.
    rewrite Hd, Hself. unfold bind, kwarg. rewrite Hsess. simpl.
    unfold on_download_data, tasks_getitem, Task_write, file_write, bind.
    simpl. rewrite Hk. simpl. by rewrite Ht.
Qed.

Lemma malformed_download_witness :
  on_message (msg_send (<["data" := VInt 1]> (download_payload "data" key1)))
    (Some [x01]) st_inflight = (inl TypeError, st_inflight).
Proof.
  set (d := <["data" := VInt 1]> (download_payload "data" key1)).
  assert (Hsub : d !! "subject" = Some (VStr "download")) by reflexivity.
  assert (Hev : method_mapping (d !! "event") = inr m_on_download_data)
    by reflexivity.
  apply (malformed_download_raises st_inflight (msg_send d) (Some [x01]) d
           m_on_download_data eq_refl eq_refl Hsub Hev).
  left. exists (VInt 1). reflexivity.
Defined.

(** X3: a "start" whose stream key is not hashable raises [TypeError]
    only after [Task] has opened the destination: the file is emptied
    and no task is registered.  The [Task] just built is dropped, so its
    file object is closed at once by its finalizer; with the download
    manager in a state it can reach, that is its only close in the whole
    run. *)
Theorem start_unhashable_key (st : St) (json : string) (size : pyval) :
  let key := VComposite json in
  let fd := length (handles (world st)) in
  let r := on_message (ev_start key size).1 None st in
  r.1 = inl TypeError /\
  tasks (self r.2) = tasks (self st) /\
  files (world r.2) !! ipa_name (self st) = Some [] /\
  effects_since st r.2 =
    [FileOpen (ipa_name (self st)) fd; FileClose fd] /\
  handles (world r.2) !! fd =
    Some {| fh_path := ipa_name (self st); fh_pos := 0%nat;
            fh_pending := []; fh_closed := true |} /\
  (wf st ->
   forall msgs,
     count (is_close fd) (trace (world (deliver msgs r.2).2)) = 1%nat /\
     handles (world (deliver msgs r.2).2) !! fd =
       Some {| fh_path := ipa_name (self st); fh_pos := 0%nat;
               fh_pending := []; fh_closed := true |}).
Proof.
  intros key fd r. subst r. rewrite on_message_start.
  unfold on_download_start, Task_init, file_open_wb, bind. simpl.
  unfold Task_dropped, bind. simpl.
  rewrite list_lookup_middle by done. simpl.
  unfold file_close. simpl. rewrite list_lookup_middle by done. simpl.
  rewrite insert_app_r_alt by done. rewrite Nat.sub_diag. simpl.
  fold fd.
  split; [done|]. split; [done|].
  split; [apply lookup_insert_eq|].
  split; [unfold effects_since; simpl; rewrite <- app_assoc;
          by rewrite drop_app_length|].
  split; [by apply list_lookup_middle|].
  intros Hwf msgs.
  set (st' := {| self := _; world := _ |}).
  assert (Hl : retired fd {| fh_path := ipa_name (self st); fh_pos := 0%nat;
                             fh_pending := []; fh_closed := true |} 1 st').
  { split; simpl.
    - by apply list_lookup_middle.
    - rewrite !count_app, count_single, count_same_close. simpl.
      rewrite count_not_elem; [done|].
      intros H. apply (wf_closes st Hwf) in H. unfold fd in H. lia.
    - intros k t Ht E.
      destruct (wf_open st Hwf k t Ht) as (h & Hh & _).
      apply lookup_lt_Some in Hh. unfold fd in E. lia. }
  pose proof (deliver_invariant _
    (fun s s' Hs P => step_retired fd _ 1 s s' Hs P) msgs st' Hl)
    as [H1 H2 _].
  split; [exact H2|exact H1].
Qed.

(** X4: the invariant of the download manager.  From a state that has
    it, in particular from a new object, whatever is delivered: every
    task in the map has [self.ipa_name] as its path and holds a file
    object that is open and was never closed, and no two stream keys
    share a file object; [self.ipa_name] and [self.session] stay as they
    were. *)
Theorem deliveries_keep_invariant (st : St)
    (msgs : list (Message * option (list byte))) :
  wf st ->
  let st' := (deliver msgs st).2 in
  wf st' /\
  ipa_name (self st') = ipa_name (self st) /\
  session (self st') = session (self st) /\
  (forall k t, tasks (self st') !! k = Some t ->
     task_path t = ipa_name (self st) /\
     (FileClose (task_file t) ∉ trace (world st')) /\
     (exists h, handles (world st') !! task_file t = Some h /\
                fh_closed h = false) /\
     forall k' t', tasks (self st') !! k' = Some t' ->
                   task_file t' = task_file t -> k' = k).
Proof.
  intros Hwf st'.
  pose proof (deliver_invariant
    (fun s => wf s /\ ipa_name (self s) = ipa_name (self st) /\
              session (self s) = session (self st))
    (fun s s' Hs P =>
       conj (step_wf s s' Hs (proj1 P))
         (conj (eq_trans (step_ipa_name s s' Hs) (proj1 (proj2 P)))
               (eq_trans (step_session s s' Hs) (proj2 (proj2 P)))))
    msgs st (conj Hwf (conj eq_refl eq_refl))) as (Hw & Hi & Hs).
  fold st' in Hw, Hi, Hs.
  split; [done|]. split; [done|]. split; [done|].
  intros k t Ht. rewrite <- Hi.
  split; [by eapply wf_path|].
  split; [by eapply wf_unclosed|].
  split; [by eapply wf_open|].
  intros k' t' Ht' E. by eapply (wf_owner st' Hw).
Qed.

Lemma deliveries_keep_invariant_witness :
  wf st_ipa /\
  wf (deliver [ev_start key1 (VInt 3); ev_data key1 [x01];
               ev_start (VInt 7) VNone; ev_end key1] st_ipa).2.
Proof.
  split; [exact wf_st_ipa|].
  apply (deliveries_keep_invariant st_ipa
           [ev_start key1 (VInt 3); ev_data key1 [x01];
            ev_start (VInt 7) VNone; ev_end key1] wf_st_ipa).
Defined.

(** X5: all streams share one destination.  A "start" on a stream key
    that has no task empties the file that a stream in flight under
    another key is writing to, and closes nothing; that other task stays
    in the map, with the same path as the new one and with its file
    object open and as it was. *)
Theorem start_other_key (st : St) (key_a k_a key_b k_b size : pyval)
    (t : Task) (h : FileHandle) :
  wf st ->
  hash_key key_a = inr k_a ->
  hash_key key_b = inr k_b ->
  k_a <> k_b ->
  tasks (self st) !! k_a = Some t ->
  tasks (self st) !! k_b = None ->
  handles (world st) !! task_file t = Some h ->
  let r := on_message (ev_start key_b size).1 None st in
  r.1 = inr tt /\
  effects_since st r.2 =
    [FileOpen (task_path t) (length (handles (world st)))] /\
  files (world r.2) !! task_path t = Some [] /\
  tasks (self r.2) !! k_a = Some t /\
  (exists t', tasks (self r.2) !! k_b = Some t' /\
              task_path t' = task_path t /\
              task_file t' <> task_file t) /\
  handles (world r.2) !! task_file t = Some h /\
  fh_closed h = false.
Proof.
  intros Hwf Ha Hb Hne Ht Hfree Hh r. subst r. rewrite on_message_start.
  destruct (start_result key_b k_b Hb size st) as (R & T & I).
  destruct (start_fresh key_b k_b Hb size st Hfree) as (Tr & F & H).
  destruct (wf_open st Hwf k_a t Ht) as (h' & Hh' & Hc).
  assert (h' = h) as -> by congruence.
  pose proof (wf_path st Hwf k_a t Ht) as Hp.
  pose proof (lookup_lt_Some _ _ _ Hh) as Hlt.
  split; [done|].
  split; [rewrite Hp; by apply effects_since_app|].
  split; [rewrite F, Hp; apply lookup_insert_eq|].
  split; [rewrite T; by rewrite lookup_insert_ne|].
  split.
  { eexists. split; [rewrite T; apply lookup_insert_eq|].
    simpl. split; [done|lia]. }
  split; [rewrite H; by rewrite lookup_app_l|done].
Qed.

Lemma start_other_key_witness :
  wf st_inflight /\
  tasks (self st_inflight) !! VStr "stream-2" = None /\
  effects_since st_inflight
    (on_message (ev_start (VStr "stream-2") VNone).1 None st_inflight).2 =
    [FileOpen "App.ipa" 1].
Proof.
  split; [exact wf_st_inflight|]. split; [reflexivity|].
  apply (start_other_key st_inflight key1 key1 (VStr "stream-2")
           (VStr "stream-2") VNone
           {| task_session := key1; task_path := "App.ipa";
              task_size := VInt 1024; task_file := 0 |}
           {| fh_path := "App.ipa"; fh_pos := 0; fh_pending := [x01; x02];
              fh_closed := false |}
           wf_st_inflight eq_refl eq_refl).
  - discriminate.
  - reflexivity.
  - reflexivity.
  - reflexivity.
Defined.

(** ** Finding the device and the application *)

Lemma find_first {A} (f : A -> bool) (l1 l2 : list A) (x : A) :
  (forall y, In y l1 -> f y = false) -> f x = true ->
  List.find f (l1 ++ x :: l2) = Some x.
Proof.
  intros H Hx. induction l1 as [|y l1 IH]; simpl.
  - by rewrite Hx.
  - rewrite (H y) by (by left). apply IH. intros z Hz. apply H. by right.
Qed.

Lemma find_none_all {A} (f : A -> bool) (l : list A) :
  (forall y, In y l -> f y = false) -> List.find f l = None.
Proof.
  intros H. induction l as [|y l IH]; [done|]. simpl.
  rewrite (H y) by (by left). apply IH. intros z Hz. apply H. by right.
Qed.

Lemma app_matches_spec q app :
  app_matches q app = true <-> q = a_identifier app \/ q = a_name app.
Proof.
  unfold app_matches. rewrite orb_true_iff, !String.eqb_eq. done.
Qed.

Lemma find_device_sound host device_id device_ip out dev :
  find_device host device_id device_ip = (out, inr dev) ->
  (forall line, ~ In (Output line) out) /\
  match device_id with
  | Some prefix =>
    out = [] /\ In dev (all_devices host) /\
    String.prefix prefix (d_id dev) = true
  | None =>
    match device_ip with
    | None => out = [] /\ dev = usb_device host
    | Some ip =>
      out = [AddRemoteDevice ip] /\ dev = get_device host ("tcp@" ++ ip)
    end
  end.
Proof.
  unfold find_device. destruct device_id as [prefix|].
  - destruct (List.find _ (all_devices host)) as [d|] eqn:E; [|done].
    intros [= <- <-]. apply List.find_some in E as [Hin Hp].
    split; [intros line []|done].
  - destruct device_ip as [ip|]; intros [= <- <-].
    + split; [|done]. intros line [H|[]]. discriminate H.
    + split; [intros line []|done].
Qed.

(** X7: what [find_app] returns.  When it returns a device and an
    application, the device has one of the types 'tether', 'remote',
    'usb', the application is installed on that device and the name
    asked for is its identifier or its display name, and nothing was
    printed.  With a device id, the device is one of those enumerated
    and its id starts with the id given; without one, it is the device
    behind "tcp@" followed by the ip, registered first, or else the USB
    device. *)
Theorem find_app_sound (host : Host) (q : string)
    (device_id device_ip : option string) (out : list host_effect)
    (dev : Device) (app : Application) :
  find_app host q device_id device_ip = (out, inr (dev, app)) ->
  type_allowed (d_type dev) = true /\
  In app (d_apps dev) /\
  (q = a_identifier app \/ q = a_name app) /\
  (forall line, ~ In (Output line) out) /\
  match device_id with
  | Some prefix =>
    out = [] /\ In dev (all_devices host) /\
    String.prefix prefix (d_id dev) = true
  | None =>
    match device_ip with
    | None => out = [] /\ dev = usb_device host
    | Some ip =>
      out = [AddRemoteDevice ip] /\ dev = get_device host ("tcp@" ++ ip)
    end
  end.
Proof.
  unfold find_app.
  destruct (find_device host device_id device_ip) as [out' [e|dev']] eqn:E;
    [done|].
  destruct (type_allowed (d_type dev')) eqn:Ht; simpl; [|done].
  destruct (List.find (app_matches q) (d_apps dev')) as [app'|] eqn:Ha;
    [|done].
  intros [= <- <- <-].
  apply List.find_some in Ha as [Hin Hm]. apply app_matches_spec in Hm.
  destruct (find_device_sound _ _ _ _ _ E) as [Hno Hdev].
  done.
Qed.

Lemma find_app_sound_witness :
  find_app host_example "Maps" (Some "0000") None = ([], inr (phone, app_maps))
  /\ type_allowed (d_type phone) = true /\ In app_maps (d_apps phone).
Proof.
  split; [reflexivity|].
  destruct (find_app_sound host_example "Maps" (Some "0000") None []
              phone app_maps eq_refl) as (H1 & H2 & _).
  split; [exact H1|exact H2].
Defined.

(** X8: the first match wins.  With a device id, [find_app] takes the
    first enumerated device whose id starts with it and, on that device,
    the first application whose identifier or display name is the name
    asked for; it returns them without printing, and the ip is not
    used. *)
Theorem find_app_first_match (host : Host) (q prefix : string)
    (device_ip : option string) (l1 l2 : list Device) (dev : Device)
    (a1 a2 : list Application) (app : Application) :
  all_devices host = (l1 ++ dev :: l2)%list ->
  (forall d, In d l1 -> String.prefix prefix (d_id d) = false) ->
  String.prefix prefix (d_id dev) = true ->
  type_allowed (d_type dev) = true ->
  d_apps dev = (a1 ++ app :: a2)%list ->
  (forall a, In a a1 -> q <> a_identifier a /\ q <> a_name a) ->
  q = a_identifier app \/ q = a_name app ->
  find_app host q (Some prefix) device_ip = ([], inr (dev, app)).
Proof.
  intros Hdevs Hl1 Hdev Hty Happs Ha1 Happ.
  unfold find_app, find_device. rewrite Hdevs.
  rewrite (find_first _ l1 l2 dev) by done.
  rewrite Hty. simpl. rewrite Happs.
  rewrite (find_first _ a1 a2 app); [done| |by apply app_matches_spec].
  intros a Ha. destruct (app_matches q a) eqn:E; [|done].
  apply app_matches_spec in E. destruct (Ha1 a Ha). by destruct E.
Qed.

Lemma find_app_first_match_witness :
  find_app host_example "com.example.maps" (Some "0000") (Some "10.0.0.2") =
  ([], inr (phone, app_maps)).
Proof.
  apply (find_app_first_match host_example "com.example.maps" "0000"
           (Some "10.0.0.2") [local_device] [] phone [app_mail] []
           app_maps eq_refl).
  - intros d [<-|[]]. reflexivity.
  - reflexivity.
  - reflexivity.
  - reflexivity.
  - intros a [<-|[]]. split; discriminate.
  - left. reflexivity.
Defined.

(** X9: an application that is not installed.  When the device is found
    and of an allowed type but no application has the name asked for as
    identifier or display name, [find_app] prints that the application
    was not found, then "installed app:", then one line "name
    (identifier)" for every installed application in enumeration order,
    then the empty line of [fatal('')], and exits with status -1. *)
Theorem find_app_unknown_app (host : Host) (q : string)
    (device_id device_ip : option string) (out : list host_effect)
    (dev : Device) :
  find_device host device_id device_ip = (out, inr dev) ->
  type_allowed (d_type dev) = true ->
  (forall a, In a (d_apps dev) -> q <> a_identifier a /\ q <> a_name a) ->
  find_app host q device_id device_ip =
  ((out ++
    [Output ("app " ++ dquote ++ q ++ dquote ++ " not found");
     Output "installed app:"] ++
    map (fun a => Output (a_name a ++ " (" ++ a_identifier a ++ ")"))
      (d_apps dev) ++
    [Output ""])%list,
   inl (SystemExit (-1))).
Proof.
  intros Hdev Hty Hnone. unfold find_app. rewrite Hdev, Hty. simpl.
  rewrite find_none_all; [done|].
  intros a Ha. destruct (app_matches q a) eqn:E; [|done].
  apply app_matches_spec in E. destruct (Hnone a Ha). by destruct E.
Qed.

Lemma find_app_unknown_app_witness :
  (find_app host_example "Notes" None None).2 = inl (SystemExit (-1)) /\
  length (find_app host_example "Notes" None None).1 = 5%nat.
Proof.
  assert (H : forall a, In a (d_apps phone) ->
                "Notes" <> a_identifier a /\ "Notes" <> a_name a).
  { intros a [<-|[<-|[]]]; split; discriminate. }
  rewrite (find_app_unknown_app host_example "Notes" None None [] phone
             eq_refl eq_refl H).
  split; reflexivity.
Defined.

(** X10: the device errors.  With a device id that no enumerated device
    id starts with, [find_app] prints "device id ... not found" and
    exits with status -1, whatever the ip; and when the device selected
    has a type other than 'tether', 'remote', 'usb', it prints "unable
    to find device" and exits with status -1 without looking at the
    applications, even if a later device with the same prefix would
    do. *)
Theorem find_app_device_errors (host : Host) (q : string)
    (device_ip : option string) :
  (forall prefix,
     (forall d, In d (all_devices host) ->
                String.prefix prefix (d_id d) = false) ->
     find_app host q (Some prefix) device_ip =
     ([Output ("device id " ++ prefix ++ " not found")],
      inl (SystemExit (-1)))) /\
  (forall device_id out dev,
     find_device host device_id device_ip = (out, inr dev) ->
     type_allowed (d_type dev) = false ->
     find_app host q device_id device_ip =
     ((out ++ [Output "unable to find device"])%list,
      inl (SystemExit (-1)))) /\
  (forall prefix l1 dev l2,
     all_devices host = (l1 ++ dev :: l2)%list ->
     (forall d, In d l1 -> String.prefix prefix (d_id d) = false) ->
     String.prefix prefix (d_id dev) = true ->
     type_allowed (d_type dev) = false ->
     find_app host q (Some prefix) device_ip =
     ([Output "unable to find device"], inl (SystemExit (-1)))).
Proof.
  split; [|split].
  - intros prefix H. unfold find_app, find_device.
    by rewrite find_none_all.
  - intros device_id out dev Hd Ht. unfold find_app. by rewrite Hd, Ht.
  - intros prefix l1 dev l2 Hdevs Hl1 Hdev Ht.
    unfold find_app, find_device. rewrite Hdevs.
    rewrite (find_first _ l1 l2 dev) by done. by rewrite Ht.
Qed.

(** ** More on the orchestration *)

Lemma keeps_refl st : keeps st st.
Proof. by repeat split. Qed.

Lemma keeps_trans st1 st2 st3 : keeps st1 st2 -> keeps st2 st3 -> keeps st1 st3.
Proof.
  intros (A1 & B1 & C1 & D1 & E1 & F1) (A2 & B2 & C2 & D2 & E2 & F2).
  repeat split; congruence.
Qed.

Lemma kp_ret {A} (a : A) : kp (ret a).
Proof. intros st. apply keeps_refl. Qed.

Lemma kp_raise {A} e : kp (@raise A e).
Proof. intros st. apply keeps_refl. Qed.

Lemma kp_bind {A B} (m : M A) (k : A -> M B) :
  kp m -> (forall a, kp (k a)) -> kp (bind m k).
Proof.
  intros Hm Hk st. unfold bind. specialize (Hm st).
  destruct (m st) as [[e|a] st1]; simpl in *; [done|].
  eapply keeps_trans; [exact Hm|apply Hk].
Qed.

Lemma kp_lift {A} (r : exn + A) : kp (lift r).
Proof. destruct r; [apply kp_raise|apply kp_ret]. Qed.

Lemma kp_get_self : kp get_self.
Proof. intros st. apply keeps_refl. Qed.

Lemma kp_get_world : kp get_world.
Proof. intros st. apply keeps_refl. Qed.

Lemma kp_getattr {A} (f : IPADump -> option A) : kp (getattr f).
Proof.
  apply kp_bind; [apply kp_get_self|]. intros s.
  destruct (f s); [apply kp_ret|apply kp_raise].
Qed.

Lemma kp_emit e : kp (emit e).
Proof. intros st. by repeat split. Qed.

Lemma kp_new_session t : kp (new_session t).
Proof. intros st. by repeat split. Qed.

Lemma kp_try_except {A} (m h : M A) exc :
  kp m -> kp h -> kp (try_except m exc h).
Proof.
  intros Hm Hh st. unfold try_except. specialize (Hm st).
  destruct (m st) as [[e|a] st1]; simpl in *; [|done].
  destruct (decide (e = exc)); [|done].
  eapply keeps_trans; [exact Hm|apply Hh].
Qed.

Lemma kp_set_opt_dest c : kp (set_opt_dest c).
Proof. intros st. by repeat split. Qed.

Lemma kp_set_plugins_script ps sc : kp (set_plugins_script ps sc).
Proof. intros st. by repeat split. Qed.

Lemma kp_set_agent_source src : kp (set_agent_source src).
Proof. intros st. by repeat split. Qed.

Create HintDb kp.

#[local] Hint Resolve kp_ret kp_raise kp_lift kp_get_self kp_get_world
  kp_getattr kp_emit kp_new_session kp_set_opt_dest kp_set_plugins_script
  kp_set_agent_source : kp.

Ltac kp_step :=
  first
    [ solve [auto with kp]
    | apply kp_try_except
    | apply kp_bind; [|intro]
    | match goal with
      | |- kp (match ?x with _ => _ end) => destruct x
      end ].

Ltac kp_auto :=
  unfold device_attach_name, device_attach, create_script, export, print,
    on_console;
  repeat kp_step.

Lemma kp_launch_plugins env ids : forall spawned groups,
  kp (launch_plugins env ids spawned groups).
Proof.
  induction ids as [|id ids IH]; intros spawned groups;
    cbn [launch_plugins]; kp_auto.
Qed.

Lemma kp_decrypt_plugins env order root container : forall decrypted,
  kp (decrypt_plugins env order root container decrypted).
Proof.
  induction order as [|p order IH]; intros decrypted;
    cbn [decrypt_plugins]; kp_auto.
Qed.

#[local] Hint Resolve kp_launch_plugins kp_decrypt_plugins : kp.

Lemma kp_dump_with_plugins env : kp (dump_with_plugins env).
Proof. unfold dump_with_plugins. kp_auto. Qed.

Lemma kp_dump env : kp (dump env).
Proof.
  unfold dump, dump_session, dump_attach.
  pose proof (kp_dump_with_plugins env). kp_auto.
Qed.

Lemma dump_extends env st : extends (fun _ => True) st (dump env st).2.
Proof.
  assert (H : ext (fun _ => True) (dump env)); [|apply H].
  unfold dump. apply ext_bind.
  - intros s. rewrite dump_attach_spec. apply extends_log.
    apply Forall_forall. done.
  - intros session s. eapply extends_weaken; [|apply ext_dump_session].
    done.
Qed.

(** The three ways through [dump] that the plugin path with a daemon
    does not cover. *)
Lemma dump_unloaded_spec (env : Env) (st : St) :
  agent_source (self st) = None ->
  (dump env st).1 = inl AttributeError /\
  effects_since st (dump env st).2 =
    (console_info st "attaching to target" ++ primary_calls env)%list.
Proof.
  intros Hsrc. unfold dump, bind. rewrite dump_attach_spec.
  unfold dump_session, create_script, getattr, bind.
  destruct st as [s [tr n fs hs fp]]. destruct s. simpl in *. subst.
  split; [done|]. unfold effects_since. simpl. by rewrite drop_app_length.
Qed.

Lemma dump_no_plugins_spec (env : Env) (st : St) (src : string) :
  agent_plugins env = [] ->
  agent_source (self st) = Some src ->
  let primary := {| sess_id := next_session (world st);
                    sess_target := ByPid (primary_pid env) |} in
  let host := {| script_session := primary |} in
  let root := agent_root env in
  let container := agent_data env ++ "/tmp" in
  (dump env st).1 = inr tt /\
  effects_since st (dump env st).2 =
    (console_info st "attaching to target" ++ primary_calls env ++
     [CreateScript primary; SetLogHandler host; OnMessage host;
      Load host; Export host XPlugins; Export host XRoot;
      Export host XData; Export host (XDecrypt root container);
      Export host (XArchive root container
                     (agent_decrypt env primary root container)
                     (opt (self st)));
      Detach primary])%list.
Proof.
  intros Hpl Hsrc primary host root container.
  unfold dump, bind. rewrite dump_attach_spec.
  fold primary. unfold dump_session, create_script, getattr, bind.
  destruct st as [s [tr n fs hs fp]]. destruct s. simpl in *.
  rewrite Hsrc, Hpl. simpl. split; [done|].
  unfold effects_since. simpl. rewrite <- !app_assoc.
  by rewrite drop_app_length.
Qed.

Lemma dump_no_pkd_spec (env : Env) (st : St) (src : string) :
  agent_plugins env <> [] ->
  agent_source (self st) = Some src ->
  pkd_running env || pkd_started env = false ->
  let primary := {| sess_id := next_session (world st);
                    sess_target := ByPid (primary_pid env) |} in
  let host := {| script_session := primary |} in
  (dump env st).1 = inl ProcessNotFoundError /\
  effects_since st (dump env st).2 =
    (console_info st "attaching to target" ++ primary_calls env ++
     [CreateScript primary; SetLogHandler host; OnMessage host;
      Load host; Export host XPlugins;
      Attach (ByName "pkd"); Spawn launchctl;
      Resume (spawn_pid env launchctl); Attach (ByName "pkd")])%list.
Proof.
  intros Hne Hsrc Hpkd primary host.
  assert (Hlen : (0 <? length (agent_plugins env))%nat = true).
  { apply Nat.ltb_lt. destruct (agent_plugins env); [done|simpl; lia]. }
  apply orb_false_iff in Hpkd as [Hr Hs].
  unfold dump, bind. rewrite dump_attach_spec.
  fold primary. unfold dump_session, create_script, getattr, export, emit,
    bind.
  destruct st as [s [tr n fs hs fp]]. destruct s. simpl in *. subst.
  rewrite Hlen.
  unfold dump_with_plugins, try_except, device_attach_name, new_session,
    emit, bind.
  rewrite Hr, Hs. simpl. split; [done|].
  unfold effects_since. simpl. rewrite <- !app_assoc.
  by rewrite drop_app_length.
Qed.

Lemma omap_flat_map {A B} (f : effect -> option A) (g : B -> list effect)
    (l : list B) :
  omap f (flat_map g l) = flat_map (fun b => omap f (g b)) l.
Proof.
  induction l as [|b l IH]; [done|].
  cbn [flat_map]. by rewrite omap_app, IH.
Qed.

Lemma flat_map_singleton {A B} (f : A -> B) (l : list A) :
  flat_map (fun a => [f a]) l = map f l.
Proof. induction l as [|a l IH]; [done|]. simpl. by rewrite IH. Qed.

Lemma primary_calls_readers env :
  attach_calls (primary_calls env) = [ByPid (primary_pid env)] /\
  export_calls (primary_calls env) = [] /\
  print_calls (primary_calls env) = [] /\
  archive_opts (primary_calls env) = [] /\
  detach_calls (primary_calls env) = [].
Proof.
  unfold primary_calls, primary_pid.
  destruct (running env); simpl; [|done].
  destruct (displaced env); simpl; done.
Qed.

Lemma console_readers st text :
  attach_calls (console_info st text) = [] /\
  export_calls (console_info st text) = [] /\
  archive_opts (console_info st text) = [] /\
  detach_calls (console_info st text) = [] /\
  kill_calls (console_info st text) = [] /\
  print_calls (console_info st text) =
    (if verbose (self st) then [[PText "[info]"; PText text]] else []).
Proof. unfold console_info. by destruct (verbose (self st)). Qed.

(** The line that the first loop prints for a plugin (line 181). *)
Lemma plugin_setup_readers env st :
  let n := next_session (world st) in
  let primary := {| sess_id := n; sess_target := ByPid (primary_pid env) |} in
  let host := {| script_session := primary |} in
  let pkd_script :=
    {| script_session := {| sess_id := S n; sess_target := ByName "pkd" |} |}
  in
  let ps := launched env (S (S n)) (agent_plugins env) in
  export_calls (plugin_setup env st) =
    ((host, XPlugins) ::
     (pkd_script, XSkipPkdValidationFor (app_pid env)) ::
     flat_map (fun p => [(host, XLaunch (plugin_id p));
                         (plugin_script p, XGroups)]) ps)%list /\
  attach_calls (plugin_setup env st) =
    (ByPid (primary_pid env) ::
     (if pkd_running env then [ByName "pkd"]
      else [ByName "pkd"; ByName "pkd"]) ++
     map (fun p => ByPid (plugin_pid p)) ps)%list /\
  print_calls (plugin_setup env st) =
    ((if verbose (self st)
      then [[PText "[info]"; PText "attaching to target"]] else []) ++
     map (fun p => [PText ("plugin " ++ plugin_id p ++ ", pid=" ++
                           pretty (plugin_pid p))]) ps)%list /\
  archive_opts (plugin_setup env st) = [].
Proof.
  intros n primary host pkd_script ps.
  destruct (primary_calls_readers env) as (P1 & P2 & P3 & P4 & _).
  destruct (console_readers st "attaching to target")
    as (C1 & C2 & C3 & _ & _ & C6).
  unfold plugin_setup. fold n primary host pkd_script ps.
  unfold export_calls, attach_calls, print_calls, archive_opts in *.
  rewrite !omap_app, !omap_flat_map, P1, P2, P3, P4, C1, C2, C3, C6.
  unfold pkd_calls, launch_effects.
  destruct (pkd_running env); simpl;
    rewrite ?flat_map_singleton, ?app_nil_r; repeat split; try done;
    induction ps as [|p ps' IH]; done.
Qed.

Lemma plugin_dump_readers env st g order :
  let container := agent_path_for_group env g in
  attach_calls (plugin_dump env st g order) = [] /\
  archive_opts (plugin_dump env st g order) =
    [{| keepWatch := keepWatch (opt (self st)); dest := Some container |}] /\
  print_calls (plugin_dump env st g order) =
    (if verbose (self st) then
       [[PText "group:"; PText g];
        [PText "container:"; PText container];
        [PText "root:"; PText (agent_root env)]]
     else []).
Proof.
  intros container. unfold plugin_dump. fold container.
  unfold attach_calls, archive_opts, print_calls.
  rewrite !omap_app, !omap_flat_map.
  assert (H : forall {A} (f : effect -> option A),
            (forall p, omap f (teardown_effects (agent_root env) container p)
                       = []) ->
            flat_map (fun p => omap f
                        (teardown_effects (agent_root env) container p))
              order = []).
  { intros A f Hf. induction order as [|p o IH]; [done|].
    cbn [flat_map]. by rewrite Hf, IH. }
  rewrite !H by done.
  destruct (verbose (self st)); done.
Qed.

Lemma set_pop_error choice X e :
  set_pop choice X = inl e -> e = KeyError /\ X = ∅.
Proof.
  unfold set_pop. intros H.
  destruct (elements X !! (choice `mod` size X)%nat) as [x|] eqn:E; [done|].
  injection H as <-. split; [done|].
  apply lookup_ge_None in E. change (length (elements X)) with (size X) in E.
  destruct (decide (size X = 0%nat)) as [Hz|Hnz].
  - by apply size_empty_inv, leibniz_equiv in Hz.
  - pose proof (Nat.mod_upper_bound choice (size X) Hnz). lia.
Qed.

Lemma launched_sessions_NoDup env ids : forall n,
  NoDup (map plugin_session (launched env n ids)).
Proof.
  induction ids as [|id ids IH]; intros n; simpl; [constructor|].
  constructor; [|apply IH].
  intros Hin. apply list_elem_of_fmap in Hin as (p & Hp & Hin).
  apply launched_sess_id in Hin. rewrite <- Hp in Hin. simpl in Hin. lia.
Qed.

(** X11: [run] fixes the destination before [dump] and nothing in
    [dump] changes it: [self.ipa_name] is the application's name with
    ".ipa" when no output is given, that name joined to the output when
    the output is a directory, and the output itself otherwise.  [run]
    reads the agent first, opens and writes no file and leaves the task
    map alone, fails exactly as [dump] fails, and prints the "Output:"
    line last, only when [dump] returned. *)
Theorem run_names_output (env : Env) (st : St) :
  let name := run_name env st in
  let st1 := (set_ipa_name name (load_agent env st).2).2 in
  let r := run env st in
  ipa_name (self r.2) = name /\
  (output (self st) = None -> name = app_name env ++ ".ipa") /\
  (forall out, output (self st) = Some out -> is_dir env out = false ->
               name = out) /\
  (forall out, output (self st) = Some out -> is_dir env out = true ->
               name = path_join out (app_name env ++ ".ipa")) /\
  agent_source (self st1) = Some (agent_dist env) /\
  files (world r.2) = files (world st) /\
  handles (world r.2) = handles (world st) /\
  tasks (self r.2) = tasks (self st) /\
  r.1 = (dump env st1).1 /\
  effects_since st r.2 =
    (ReadAgent :: effects_since st1 (dump env st1).2 ++
     match r.1 with
     | inr _ => [Print [PText ("Output: " ++ name)]]
     | inl _ => []
     end)%list.
Proof.
  intros name st1 r.
  assert (Hr : r = bind (dump env)
                     (fun _ => print [PText ("Output: " ++ name)]) st1).
  { reflexivity. }
  pose proof (kp_dump env st1) as (K1 & _ & _ & _ & K5 & K6).
  pose proof (dump_extends env st1) as (_ & T1 & es & E1 & _).
  assert (Htr1 : trace (world st1) = (trace (world st) ++ [ReadAgent])%list)
    by reflexivity.
  assert (Hes : effects_since st1 (dump env st1).2 = es)
    by (by apply effects_since_app).
  rewrite Hes. rewrite Hr. unfold bind.
  destruct (dump env st1) as [[e|[]] st2]; simpl in *.
  - repeat split; try done.
    + unfold name, run_name. by intros ->.
    + unfold name, run_name. by intros out -> ->.
    + unfold name, run_name. by intros out -> ->.
    + apply effects_since_app. rewrite E1, app_nil_r, <- app_assoc.
      done.
  - repeat split; try done.
    + unfold name, run_name. by intros ->.
    + unfold name, run_name. by intros out -> ->.
    + unfold name, run_name. by intros out -> ->.
    + apply effects_since_app. rewrite E1, <- !app_assoc. done.
Qed.

(** X12: the daemon that cannot be reached.  When [device.attach('pkd')]
    fails, the program starts the daemon with launchctl, resumes it and
    tries once more; when that fails too, [ProcessNotFoundError] leaves
    [dump]: the only agent call made was [plugins()], no plugin was
    launched, and the primary session was not detached. *)
Theorem dump_daemon_unreachable (env : Env) (st : St) (src : string) :
  agent_plugins env <> [] ->
  agent_source (self st) = Some src ->
  pkd_running env = false ->
  pkd_started env = false ->
  let primary := {| sess_id := next_session (world st);
                    sess_target := ByPid (primary_pid env) |} in
  let r := dump env st in
  let es := effects_since st r.2 in
  r.1 = inl ProcessNotFoundError /\
  attach_calls es = [ByPid (primary_pid env); ByName "pkd"; ByName "pkd"] /\
  export_calls es = [({| script_session := primary |}, XPlugins)] /\
  detach_calls es = [] /\
  exists pre,
    es = (pre ++ [Attach (ByName "pkd"); Spawn launchctl;
                  Resume (spawn_pid env launchctl);
                  Attach (ByName "pkd")])%list.
Proof.
  intros Hne Hsrc Hr Hs primary r es.
  destruct (dump_no_pkd_spec env st src Hne Hsrc) as [R E].
  { by rewrite Hr, Hs. }
  fold primary r es in R, E.
  destruct (primary_calls_readers env) as (P1 & P2 & _ & _ & P5).
  destruct (console_readers st "attaching to target")
    as (C1 & C2 & _ & C4 & _).
  split; [done|]. rewrite E.
  unfold attach_calls, export_calls, detach_calls in *.
  rewrite !omap_app, P1, P2, P5, C1, C2, C4.
  repeat split.
  exists (console_info st "attaching to target" ++ primary_calls env ++
          [CreateScript primary; SetLogHandler {| script_session := primary |};
           OnMessage {| script_session := primary |};
           Load {| script_session := primary |};
           Export {| script_session := primary |} XPlugins])%list.
  rewrite <- !app_assoc. reflexivity.
Qed.

Lemma dump_daemon_unreachable_witness :
  (dump env_no_pkd st_loaded).1 = inl ProcessNotFoundError.
Proof.
  apply (dump_daemon_unreachable env_no_pkd st_loaded "agent");
    [discriminate|reflexivity..].
Defined.

Lemma launched_pids (env : Env) (ids : list string) : forall n,
  map plugin_pid (launched env n ids) = map (agent_launch env) ids.
Proof.
  induction ids as [|id ids IH]; intros n; simpl; [done|]. by rewrite IH.
Qed.

(** X13: the plugin path up to the resolution of the group, whatever
    comes of it.  The agent is asked for [plugins()]; on the daemon's
    script the validation is skipped for [self.app.pid], the pid that
    the application had before [dump] (0 if it did not run); then every
    plugin is launched through the host script and asked for its groups
    on its own script, in the order of [plugins()].  The sessions
    attached are the primary one, the daemon's (after one failed attempt
    if it had to be started) and one per plugin, on the pid that
    [launch] returned. *)
Theorem plugin_setup_protocol (env : Env) (st : St) (src : string) :
  agent_plugins env <> [] ->
  agent_source (self st) = Some src ->
  pkd_running env || pkd_started env = true ->
  let n := next_session (world st) in
  let primary := {| sess_id := n; sess_target := ByPid (primary_pid env) |} in
  let host := {| script_session := primary |} in
  let pkd_script :=
    {| script_session := {| sess_id := S n; sess_target := ByName "pkd" |} |}
  in
  let ps := launched env (S (S n)) (agent_plugins env) in
  let es := effects_since st (dump env st).2 in
  map plugin_id ps = agent_plugins env /\
  map plugin_pid ps = map (agent_launch env) (agent_plugins env) /\
  attach_calls es =
    (ByPid (primary_pid env) ::
     (if pkd_running env then [ByName "pkd"]
      else [ByName "pkd"; ByName "pkd"]) ++
     map (fun p => ByPid (plugin_pid p)) ps)%list /\
  exists rest,
    export_calls es =
      ((host, XPlugins) ::
       (pkd_script, XSkipPkdValidationFor (app_pid env)) ::
       flat_map (fun p => [(host, XLaunch (plugin_id p));
                           (plugin_script p, XGroups)]) ps ++ rest)%list /\
    Forall (fun c => match c.2 with
                     | XLaunch _ | XGroups | XPlugins
                     | XSkipPkdValidationFor _ => False
                     | _ => True
                     end) rest.
Proof.
  intros Hne Hsrc Hpkd n primary host pkd_script ps es.
  pose proof (dump_plugins_spec env st src Hne Hsrc Hpkd) as Hspec.
  simpl in Hspec. fold n ps es in Hspec.
  destruct (plugin_setup_readers env st) as (S1 & S2 & _).
  fold n primary host pkd_script ps in S1, S2.
  split; [apply launched_ids|].
  split; [apply launched_pids|].
  assert (Hcases :
    es = plugin_setup env st \/
    exists g, es = (plugin_setup env st ++
                    plugin_dump env st g (set_iter (hash_order env) ps))%list).
  { destruct (set_pop (pop_choice env) (common_groups env ps)) as [e|g].
    - left. apply Hspec.
    - destruct (str_truthy g); [right; exists g|left]; apply Hspec. }
  clear Hspec. destruct Hcases as [-> | [g ->]].
  - split; [done|]. exists []. rewrite app_nil_r. split; [done|constructor].
  - destruct (plugin_dump_readers env st g (set_iter (hash_order env) ps))
      as (D1 & _).
    split.
    { unfold attach_calls in *. by rewrite omap_app, S2, D1, app_nil_r. }
    exists (export_calls (plugin_dump env st g (set_iter (hash_order env) ps))).
    split.
    { unfold export_calls in *. by rewrite omap_app, S1. }
    unfold plugin_dump, export_calls.
    rewrite !omap_app, omap_flat_map.
    repeat apply Forall_app_2.
    + repeat constructor.
    + destruct (verbose (self st)); constructor.
    + repeat constructor.
    + generalize (set_iter (hash_order env) ps). intros o.
      induction o as [|p o IH]; [constructor|].
      cbn [flat_map]. apply Forall_app_2; [|exact IH].
      repeat constructor.
    + repeat constructor.
Qed.

Lemma plugin_setup_protocol_witness :
  attach_calls (effects_since st_loaded (dump env_reversed st_loaded).2) =
  [ByPid 100; ByName "pkd"; ByPid 201; ByPid 202].
Proof.
  apply (plugin_setup_protocol env_reversed st_loaded "agent");
    [discriminate|reflexivity..].
Defined.

(** X14: how group resolution fails.  On the plugin path with the daemon
    reachable, [dump] fails in two ways only: with the [KeyError] of
    [set.pop()] when no group is common to all plugins, and with the
    [RuntimeError] of lines 193-194 when the group taken from the
    intersection is the empty string. *)
Theorem resolution_failure_kinds (env : Env) (st : St) (src : string) :
  agent_plugins env <> [] ->
  agent_source (self st) = Some src ->
  pkd_running env || pkd_started env = true ->
  let ps := launched env (S (S (next_session (world st))))
              (agent_plugins env) in
  let common := common_groups env ps in
  let r := dump env st in
  (common = ∅ -> r.1 = inl KeyError) /\
  (set_pop (pop_choice env) common = inr "" ->
   r.1 = inl (RuntimeError no_group_message)) /\
  (common = {[""]} -> r.1 = inl (RuntimeError no_group_message)) /\
  (forall e, r.1 = inl e ->
     (e = KeyError /\ common = ∅) \/
     (e = RuntimeError no_group_message /\ "" ∈ common)).
Proof.
  intros Hne Hsrc Hpkd ps common r.
  pose proof (dump_plugins_spec env st src Hne Hsrc Hpkd) as Hspec.
  simpl in Hspec. fold ps common r in Hspec.
  split; [|split; [|split]].
  - intros Hc. rewrite Hc, set_pop_empty in Hspec. apply Hspec.
  - intros Hp. rewrite Hp in Hspec. apply Hspec.
  - intros Hc. rewrite Hc, set_pop_singleton in Hspec. apply Hspec.
  - intros e He.
    destruct (set_pop (pop_choice env) common) as [e'|g] eqn:Hp.
    + destruct Hspec as [Hr _]. rewrite Hr in He. injection He as <-.
      left. by apply set_pop_error in Hp.
    + apply set_pop_elem_of in Hp.
      destruct g as [|c g]; simpl in Hspec.
      * destruct Hspec as [Hr _]. rewrite Hr in He. injection He as <-.
        by right.
      * destruct Hspec as [Hr _]. rewrite Hr in He. discriminate.
Qed.

Lemma resolution_failure_kinds_witness :
  (dump env_empty_group st_loaded).1 = inl (RuntimeError no_group_message).
Proof.
  assert (Hc : common_groups env_empty_group
                 (launched env_empty_group 2 (agent_plugins env_empty_group))
               = {[""]}) by (vm_compute; reflexivity).
  assert (Hne : agent_plugins env_empty_group <> []) by discriminate.
  destruct (resolution_failure_kinds env_empty_group st_loaded "agent"
              Hne eq_refl eq_refl) as (_ & _ & H & _).
  exact (H Hc).
Defined.

(** X15: what a failed resolution leaves behind.  When [dump] fails at
    the resolution of the group, every plugin of [plugins()] has been
    launched and attached, the only session detached is the daemon's,
    nothing was killed after the primary session was set up, and no
    [root], [path_for_group], [decrypt] or [archive] call was made: the
    primary session and the plugin sessions stay attached and the plugin
    processes stay alive. *)
Theorem resolution_failure_leaks (env : Env) (st : St) (src : string)
    (e : exn) :
  agent_plugins env <> [] ->
  agent_source (self st) = Some src ->
  pkd_running env || pkd_started env = true ->
  (dump env st).1 = inl e ->
  let n := next_session (world st) in
  let primary := {| sess_id := n; sess_target := ByPid (primary_pid env) |} in
  let host := {| script_session := primary |} in
  let pkd := {| sess_id := S n; sess_target := ByName "pkd" |} in
  let ps := launched env (S (S n)) (agent_plugins env) in
  let es := effects_since st (dump env st).2 in
  detach_calls es = [pkd] /\
  kill_calls es = kill_calls (primary_calls env) /\
  export_calls es =
    ((host, XPlugins) ::
     ({| script_session := pkd |}, XSkipPkdValidationFor (app_pid env)) ::
     flat_map (fun p => [(host, XLaunch (plugin_id p));
                         (plugin_script p, XGroups)]) ps)%list /\
  map plugin_id ps = agent_plugins env /\
  (forall p, p ∈ ps ->
     Attach (ByPid (plugin_pid p)) ∈ es /\
     (Detach (plugin_session p) ∉ es)) /\
  (Detach primary ∉ es).
Proof.
  intros Hne Hsrc Hpkd He n primary host pkd ps es.
  pose proof (dump_plugins_spec env st src Hne Hsrc Hpkd) as Hspec.
  simpl in Hspec. fold n ps es in Hspec.
  assert (Hes : es = plugin_setup env st).
  { destruct (set_pop (pop_choice env) (common_groups env ps)) as [e'|g];
      [apply Hspec|].
    destruct (str_truthy g); [|apply Hspec].
    destruct Hspec as [Hr _]. rewrite Hr in He. discriminate. }
  destruct (plugin_setup_calls env st) as (_ & _ & _ & S4 & S5).
  destruct (plugin_setup_readers env st) as (R1 & R2 & _).
  fold n primary host ps in R1, R2. fold n pkd in S4.
  rewrite Hes.
  split; [done|]. split; [done|]. split; [done|].
  split; [apply launched_ids|].
  assert (Hd : forall s, Detach s ∈ plugin_setup env st -> s = pkd).
  { intros s Hs.
    assert (Hin : s ∈ detach_calls (plugin_setup env st)).
    { unfold detach_calls. apply list_elem_of_omap.
      exists (Detach s). by split. }
    rewrite S4 in Hin. by apply list_elem_of_singleton in Hin. }
  split.
  - intros p Hp. split.
    + assert (Hin : ByPid (plugin_pid p) ∈
                    attach_calls (plugin_setup env st)).
      { rewrite R2. right. apply elem_of_app. right.
        apply list_elem_of_fmap. by exists p. }
      unfold attach_calls in Hin. apply list_elem_of_omap in Hin
        as (e0 & He0 & Hm).
      destruct e0; try discriminate. by injection Hm as ->.
    + intros Hin. apply Hd in Hin. apply launched_sess_id in Hp.
      rewrite Hin in Hp. simpl in Hp. lia.
  - intros Hin. apply Hd in Hin. unfold primary, pkd in Hin.
    injection Hin as Hn _. lia.
Qed.

Lemma resolution_failure_leaks_witness :
  detach_calls (effects_since st_loaded (dump env_disjoint st_loaded).2) =
  [{| sess_id := 1; sess_target := ByName "pkd" |}].
Proof.
  assert (He : (dump env_disjoint st_loaded).1 = inl KeyError)
    by (vm_compute; reflexivity).
  assert (Hne : agent_plugins env_disjoint <> []) by discriminate.
  apply (resolution_failure_leaks env_disjoint st_loaded "agent" KeyError
           Hne eq_refl eq_refl He).
Defined.

(** X16: on the plugin path that succeeds, every session that was
    attached is detached exactly once: the daemon's before the group is
    resolved, each plugin's right after its [decrypt], the primary one
    last; and every plugin process is killed exactly once, the only
    other kill being the one that may precede the respawn of the
    application. *)
Theorem plugin_sessions_released (env : Env) (st : St) (src g : string) :
  agent_plugins env <> [] ->
  agent_source (self st) = Some src ->
  pkd_running env || pkd_started env = true ->
  let n := next_session (world st) in
  let ps := launched env (S (S n)) (agent_plugins env) in
  set_pop (pop_choice env) (common_groups env ps) = inr g ->
  g <> "" ->
  let primary := {| sess_id := n; sess_target := ByPid (primary_pid env) |} in
  let pkd := {| sess_id := S n; sess_target := ByName "pkd" |} in
  let order := set_iter (hash_order env) ps in
  let es := effects_since st (dump env st).2 in
  detach_calls es = (pkd :: map plugin_session order ++ [primary])%list /\
  kill_calls es =
    (kill_calls (primary_calls env) ++ map plugin_pid order)%list /\
  detach_calls es ≡ₚ primary :: pkd :: map plugin_session ps /\
  NoDup (detach_calls es) /\
  map plugin_pid order ≡ₚ map (agent_launch env) (agent_plugins env).
Proof.
  intros Hne Hsrc Hpkd n ps Hpop Hg primary pkd order es.
  pose proof (dump_plugins_spec env st src Hne Hsrc Hpkd) as Hspec.
  simpl in Hspec. fold n ps in Hspec. rewrite Hpop in Hspec.
  apply str_truthy_true in Hg. rewrite Hg in Hspec.
  fold order es in Hspec. destruct Hspec as [_ Hes].
  destruct (plugin_setup_calls env st) as (_ & _ & _ & S4 & S5).
  destruct (plugin_dump_calls env st g order) as (_ & _ & _ & D4 & D5).
  fold n primary in D4. fold n pkd in S4.
  assert (Hd : detach_calls es =
               (pkd :: map plugin_session order ++ [primary])%list).
  { rewrite Hes. unfold detach_calls in *. by rewrite omap_app, S4, D4. }
  assert (Hperm : order ≡ₚ ps) by apply set_iter_perm.
  assert (Hp : detach_calls es ≡ₚ primary :: pkd :: map plugin_session ps).
  { rewrite Hd. rewrite Hperm.
    rewrite (Permutation_app_comm _ [primary]). simpl. apply perm_swap. }
  split; [done|].
  split; [rewrite Hes; unfold kill_calls in *; by rewrite omap_app, S5, D5|].
  split; [done|].
  split.
  - rewrite Hp. constructor.
    { intros Hin. apply elem_of_cons in Hin as [Hin|Hin].
      - unfold primary, pkd in Hin. injection Hin as Hn _. lia.
      - apply list_elem_of_fmap in Hin as (p & Hpp & Hin).
        apply launched_sess_id in Hin. rewrite <- Hpp in Hin.
        simpl in Hin. lia. }
    constructor; [|apply launched_sessions_NoDup].
    intros Hin. apply list_elem_of_fmap in Hin as (p & Hpp & Hin).
    apply launched_sess_id in Hin. rewrite <- Hpp in Hin. simpl in Hin. lia.
  - rewrite Hperm. unfold ps. by rewrite launched_pids.
Qed.

Lemma plugin_sessions_released_witness :
  kill_calls (effects_since st_loaded (dump env_reversed st_loaded).2) =
  [202; 201].
Proof.
  assert (Hpop : set_pop (pop_choice env_reversed)
            (common_groups env_reversed
               (launched env_reversed 2 (agent_plugins env_reversed)))
          = inr "group.a") by (vm_compute; reflexivity).
  assert (Hne : agent_plugins env_reversed <> []) by discriminate.
  assert (Hg : "group.a" <> "") by discriminate.
  destruct (plugin_sessions_released env_reversed st_loaded "agent" "group.a"
              Hne eq_refl eq_refl Hpop Hg) as (_ & K & _).
  exact K.
Defined.

Lemma archive_opts_length tr :
  length (archive_opts tr) = length (archive_calls tr).
Proof.
  unfold archive_opts, archive_calls. induction tr as [|e tr IH]; [done|].
  destruct e as [| | | | | | | | | |s []| | | | |]; simpl; auto.
Qed.

(** X17: in every run of [dump], whatever the device and the agents
    answer and whatever the state of the object, [archive] is called at
    most once; it is called exactly when [dump] returns, it is then the
    last agent call, followed only by the detach of the primary session;
    and the options it gets carry the ['keepWatch'] that the object was
    built with. *)
Theorem archive_at_most_once (env : Env) (st : St) :
  let primary := {| sess_id := next_session (world st);
                    sess_target := ByPid (primary_pid env) |} in
  let host := {| script_session := primary |} in
  let r := dump env st in
  let es := effects_since st r.2 in
  (length (archive_calls es) <= 1)%nat /\
  (r.1 = inr tt <-> length (archive_calls es) = 1%nat) /\
  Forall (fun o => keepWatch o = keepWatch (opt (self st)))
    (archive_opts es) /\
  (r.1 = inr tt ->
   exists pre root container merged o,
     es = (pre ++ [Export host (XArchive root container merged o);
                   Detach primary])%list).
Proof.
  intros primary host r es.
  destruct (count_primary_calls env) as (_ & _ & _ & _ & _ & _ & _ & A0).
  destruct (primary_calls_readers env) as (_ & _ & _ & O0 & _).
  destruct (console_readers st "attaching to target")
    as (_ & _ & O1 & _).
  pose proof (archive_calls_console st "attaching to target") as A1.
  destruct (agent_source (self st)) as [src|] eqn:Hsrc.
  2:{ destruct (dump_unloaded_spec env st Hsrc) as [R E].
      fold r es in R, E. rewrite E, R.
      unfold archive_calls, archive_opts in *.
      rewrite !omap_app, A0, A1, O0, O1. simpl.
      repeat split; try done; try lia; try constructor. }
  destruct (decide (agent_plugins env = [])) as [Hpl|Hne].
  { destruct (dump_no_plugins_spec env st src Hpl Hsrc) as [R E].
    fold primary host r es in R, E. rewrite E, R.
    unfold archive_calls, archive_opts in *.
    rewrite !omap_app, A0, A1, O0, O1. simpl.
    repeat split; try done; try lia; try (by repeat constructor).
    intros _.
      eexists (console_info st "attaching to target" ++ primary_calls env ++
               [_; _; _; _; _; _; _; _])%list, _, _, _, _.
      rewrite <- !app_assoc. reflexivity. }
  destruct (pkd_running env || pkd_started env) eqn:Hpkd.
  2:{ destruct (dump_no_pkd_spec env st src Hne Hsrc Hpkd) as [R E].
      fold primary host r es in R, E. rewrite E, R.
      unfold archive_calls, archive_opts in *.
      rewrite !omap_app, A0, A1, O0, O1. simpl.
      repeat split; try done; try lia; try constructor. }
  pose proof (dump_plugins_spec env st src Hne Hsrc Hpkd) as Hspec.
  simpl in Hspec. fold r es in Hspec.
  destruct (plugin_setup_calls env st) as (_ & S2 & _).
  destruct (plugin_setup_readers env st) as (_ & _ & _ & S4).
  set (ps := launched env (S (S (next_session (world st))))
               (agent_plugins env)) in *.
  assert (Hfail : forall e, r.1 = inl e -> es = plugin_setup env st ->
    (length (archive_calls es) <= 1)%nat /\
    (r.1 = inr tt <-> length (archive_calls es) = 1%nat) /\
    Forall (fun o => keepWatch o = keepWatch (opt (self st)))
      (archive_opts es) /\
    (r.1 = inr tt ->
     exists pre root container merged o,
       es = (pre ++ [Export host (XArchive root container merged o);
                     Detach primary])%list)).
  { intros e R E. rewrite E, R, S2, S4. simpl.
    repeat split; try done; try lia; try constructor. }
  destruct (set_pop (pop_choice env) (common_groups env ps)) as [e|g].
  { destruct Hspec as [R E]. by eapply Hfail. }
  destruct (str_truthy g).
  2:{ destruct Hspec as [R E]. by eapply Hfail. }
  destruct Hspec as [R E].
  destruct (plugin_dump_calls env st g (set_iter (hash_order env) ps))
    as (_ & D2 & _).
  destruct (plugin_dump_readers env st g (set_iter (hash_order env) ps))
    as (_ & D4 & _).
  rewrite E, R.
  unfold archive_calls, archive_opts in *.
  rewrite !omap_app, S2, S4, D2, D4. simpl.
  repeat split; try done; try lia; try (by repeat constructor).
  intros _. unfold plugin_dump. fold primary host.
  set (root := agent_root env). set (container := agent_path_for_group env g).
  set (order := set_iter (hash_order env) ps).
  exists (plugin_setup env st ++
          [Export host XRoot; Export host (XPathForGroup g)] ++
          (if verbose (self st) then
             [Print [PText "group:"; PText g];
              Print [PText "container:"; PText container];
              Print [PText "root:"; PText root]]
           else []) ++
          [Export host (XDecrypt root container)] ++
          flat_map (teardown_effects root container) order)%list,
    root, container,
    (agent_decrypt env primary root container ++
     concat (map (plugin_manifest env root container) order))%list,
    {| keepWatch := keepWatch (opt (self st)); dest := Some container |}.
  rewrite <- !app_assoc. reflexivity.
Qed.

Lemma launched_lines (env : Env) (ids : list string) : forall n,
  map (fun p => [PText ("plugin " ++ plugin_id p ++ ", pid=" ++
                        pretty (plugin_pid p))]) (launched env n ids) =
  map (fun p => [PText ("plugin " ++ plugin_id p ++ ", pid=" ++
                        pretty (agent_launch env (plugin_id p)))])
    (launched env n ids).
Proof.
  induction ids as [|id ids IH]; intros n; [done|].
  simpl. by rewrite IH.
Qed.

(** X18: what the plugin path prints when it succeeds.  One line
    "plugin <id>, pid=<pid>" for every plugin, in launch order, whether
    the object is verbose or not; in verbose mode the line of the
    console comes before them and the lines "group:", "container:" and
    "root:" after them. *)
Theorem plugin_path_output (env : Env) (st : St) (src g : string) :
  agent_plugins env <> [] ->
  agent_source (self st) = Some src ->
  pkd_running env || pkd_started env = true ->
  let ps := launched env (S (S (next_session (world st))))
              (agent_plugins env) in
  set_pop (pop_choice env) (common_groups env ps) = inr g ->
  g <> "" ->
  let es := effects_since st (dump env st).2 in
  let plugin_lines :=
    map (fun p => [PText ("plugin " ++ plugin_id p ++ ", pid=" ++
                          pretty (agent_launch env (plugin_id p)))]) ps in
  map plugin_id ps = agent_plugins env /\
  (verbose (self st) = false -> print_calls es = plugin_lines) /\
  (verbose (self st) = true ->
   print_calls es =
     ([[PText "[info]"; PText "attaching to target"]] ++ plugin_lines ++
      [[PText "group:"; PText g];
       [PText "container:"; PText (agent_path_for_group env g)];
       [PText "root:"; PText (agent_root env)]])%list).
Proof.
  intros Hne Hsrc Hpkd ps Hpop Hg es plugin_lines.
  pose proof (dump_plugins_spec env st src Hne Hsrc Hpkd) as Hspec.
  simpl in Hspec. fold ps in Hspec. rewrite Hpop in Hspec.
  apply str_truthy_true in Hg. rewrite Hg in Hspec.
  fold es in Hspec. destruct Hspec as [_ Hes].
  destruct (plugin_setup_readers env st) as (_ & _ & S3 & _).
  destruct (plugin_dump_readers env st g (set_iter (hash_order env) ps))
    as (_ & _ & D3).
  fold ps in S3.
  assert (Hl : map (fun p => [PText ("plugin " ++ plugin_id p ++ ", pid=" ++
                                     pretty (plugin_pid p))]) ps
               = plugin_lines).
  { unfold plugin_lines, ps. apply launched_lines. }
  split; [apply launched_ids|].
  rewrite Hes. unfold print_calls in *. rewrite omap_app, S3, D3, Hl.
  split; intros ->; simpl; by rewrite ?app_nil_r.
Qed.

Lemma plugin_path_output_witness :
  print_calls (effects_since st_loaded (dump env_reversed st_loaded).2) =
  [[PText "plugin ext.x, pid=201"]; [PText "plugin ext.y, pid=202"]].
Proof.
  assert (Hpop : set_pop (pop_choice env_reversed)
            (common_groups env_reversed
               (launched env_reversed 2 (agent_plugins env_reversed)))
          = inr "group.a") by (vm_compute; reflexivity).
  assert (Hne : agent_plugins env_reversed <> []) by discriminate.
  assert (Hg : "group.a" <> "") by discriminate.
  destruct (plugin_path_output env_reversed st_loaded "agent" "group.a"
              Hne eq_refl eq_refl Hpop Hg) as (_ & H & _).
  exact (H eq_refl).
Defined.

(** X19: [dump] on an object whose agent was not loaded raises
    [AttributeError] at [self.agent_source], but only after the primary
    session was set up: the device calls of lines 132-144 have been
    made, the kill of a displaced application included, no agent call
    was made and the session just attached is not detached. *)
Theorem dump_before_load_agent (env : Env) (st : St) :
  agent_source (self st) = None ->
  let r := dump env st in
  let es := effects_since st r.2 in
  r.1 = inl AttributeError /\
  calls es = primary_calls env /\
  attach_calls es = [ByPid (primary_pid env)] /\
  export_calls es = [] /\
  detach_calls es = [] /\
  (displaced env = true -> kill_calls es = [app_pid env]).
Proof.
  intros Hsrc r es.
  destruct (dump_unloaded_spec env st Hsrc) as [R E]. fold r es in R, E.
  destruct (primary_calls_readers env) as (P1 & P2 & _ & _ & P5).
  destruct (console_readers st "attaching to target")
    as (C1 & C2 & _ & C4 & C5 & _).
  split; [done|]. rewrite E.
  split.
  { rewrite calls_app, calls_console. simpl.
    destruct (primary_calls_cases env) as [-> | [-> | ->]]; done. }
  unfold attach_calls, export_calls, detach_calls, kill_calls in *.
  rewrite !omap_app, P1, P2, P5, C1, C2, C4, C5. simpl.
  repeat split.
  intros Hd. unfold primary_calls, displaced in *.
  destruct (running env); [|done]. simpl in *. by rewrite Hd.
Qed.

Lemma dump_before_load_agent_witness :
  (dump (env_example []) st_new).1 = inl AttributeError.
Proof.
  apply (dump_before_load_agent (env_example []) st_new). reflexivity.
Defined.
